(** * Meeting-notes analyzer: the classification engine

    A shallow embedding of [MeetingNotesAnalyzer] (meeting_notes_app.py):
    the two analysis strategies [analyze_with_spacy] and
    [analyze_with_patterns], the three category tests [_is_question],
    [_is_decision], [_is_action] and [_check_patterns] with the regular
    expressions of [__init__].

    Text.  A Python [str] is modelled as a list of characters, a character
    being a code point below 256 (an [ascii]); whitespace, lower-casing
    and word characters follow Python's Unicode tables on that range.

    Errors.  Operations that can raise in Python (indexing a document,
    looking a key up in a dict) return [option]; [None] is a raised
    exception and is propagated by the bind of the error monad.

    The annotation engine (spaCy's [nlp]) is external to the program: it is
    a parameter of the annotation-based strategy.  A call of it returns a
    document or raises, as it does on a text longer than
    [nlp.max_length]. *)

From Stdlib Require Import Ascii String NArith List Bool Lia.
From stdpp Require Import base option list strings gmap fin_maps.

Local Open Scope string_scope.
Local Open Scope list_scope.
Local Open Scope N_scope.

(** ** Python strings *)

Module PyStr.

(** A text: the characters of a Python [str]. *)
Definition str : Type := list ascii.

(** A literal of the source. *)
Definition lit (s : string) : str := list_ascii_of_string s.

Definition code (c : ascii) : N := N_of_ascii c.

(** [c.isspace()], on code points below 256. *)
Definition isspace (c : ascii) : bool :=
  let n := code c in
  ((9 <=? n) && (n <=? 13)) || ((28 <=? n) && (n <=? 32))
  || (n =? 133) || (n =? 160).

(** [c.lower()] for one character: A-Z and the upper-case letters of
    Latin-1 (all of 192..222 but the multiplication sign 215). *)
Definition lower_char (c : ascii) : ascii :=
  let n := code c in
  if ((65 <=? n) && (n <=? 90))
     || ((192 <=? n) && (n <=? 222) && negb (n =? 215))
  then ascii_of_N (n + 32) else c.

(** [s.lower()] *)
Definition lower (s : str) : str := map lower_char s.

(** [s.lstrip()], [s.rstrip()] and [s.strip()] without argument. *)
Fixpoint lstrip (s : str) : str :=
  match s with
  | c :: s' => if isspace c then lstrip s' else s
  | [] => []
  end.

Definition rstrip (s : str) : str := rev (lstrip (rev s)).

Definition strip (s : str) : str := rstrip (lstrip s).

(** [s.split(sep)] for a one-character separator: the pieces between the
    separators, the empty ones included; never an empty list. *)
Fixpoint split (sep : ascii) (s : str) : list str :=
  match s with
  | [] => [[]]
  | c :: s' =>
      if decide (c = sep) then [] :: split sep s'
      else match split sep s' with
           | piece :: rest => (c :: piece) :: rest
           | [] => [[c]]
           end
  end.

(** [s.startswith(p)] *)
Fixpoint startswith (p s : str) : bool :=
  match p, s with
  | [], _ => true
  | a :: p', b :: s' => bool_decide (a = b) && startswith p' s'
  | _ :: _, [] => false
  end.

(** [sub in s]: [sub] occurs in [s] as a contiguous substring. *)
Fixpoint contains (sub s : str) : bool :=
  startswith sub s ||
  match s with
  | _ :: s' => contains sub s'
  | [] => false
  end.

(** [x in l] for a list of strings. *)
Definition mem (x : str) (l : list str) : bool := bool_decide (x ∈ l).

(** [any(p in s for p in phrases)] *)
Definition any_in (phrases : list str) (s : str) : bool :=
  existsb (fun p => contains p s) phrases.

(** [list(dict.fromkeys(l))]: the keys of a dict filled from [l] in
    order; a key already present keeps its position. *)
Definition fromkeys_step (keys : list str) (x : str) : list str :=
  if mem x keys then keys else keys ++ [x].

Definition fromkeys (l : list str) : list str := foldl fromkeys_step [] l.

End PyStr.
Import PyStr.

(** ** Regular expressions, as [re.search(pattern, text, re.IGNORECASE)]
    uses them *)

Module Re.

(** A character class. *)
Inductive cset : Type :=
| Space                      (* \s *)
| OneOf (cs : str)           (* [...] *)
| NoneOf (cs : str)          (* [^...] *)
| Range (lo hi : ascii).     (* [lo-hi] *)

(** The patterns of the analyzer: literals, classes, a class repeated,
    the word boundary, sequence and alternative.  Every quantifier of
    the source applies to a single class; groups only delimit, and what
    they capture is never read. *)
Inductive regex : Type :=
| Lit (s : str)              (* literal text *)
| Cls (cs : cset)            (* one character of the class *)
| Star (cs : cset)           (* cs* *)
| Plus (cs : cset)           (* cs+ *)
| WordB                      (* \b *)
| Seq (r1 r2 : regex)
| Alt (r1 r2 : regex).

(** A letter is equal, under IGNORECASE, to its other case. *)
Definition upper_char (c : ascii) : ascii :=
  let n := code c in
  if ((97 <=? n) && (n <=? 122))
     || ((224 <=? n) && (n <=? 254) && negb (n =? 247))
  then ascii_of_N (n - 32) else c.

Definition in_range (lo hi c : ascii) : bool :=
  (code lo <=? code c) && (code c <=? code hi).

Definition in_chars (l : str) (c : ascii) : bool :=
  bool_decide (c ∈ l) || bool_decide (lower_char c ∈ l)
  || bool_decide (upper_char c ∈ l).

(** Membership of a class under IGNORECASE: the character, its lower
    case or its upper case is in the class. *)
Definition cset_mem (cs : cset) (c : ascii) : bool :=
  match cs with
  | Space => isspace c
  | OneOf l => in_chars l c
  | NoneOf l => negb (in_chars l c)
  | Range lo hi =>
      in_range lo hi c || in_range lo hi (lower_char c)
      || in_range lo hi (upper_char c)
  end.

(** \w: alphanumeric or underscore. *)
Definition is_word (c : ascii) : bool :=
  let n := code c in
  ((48 <=? n) && (n <=? 57)) || ((65 <=? n) && (n <=? 90)) || (n =? 95)
  || ((97 <=? n) && (n <=? 122))
  || (n =? 170) || (n =? 178) || (n =? 179) || (n =? 181) || (n =? 185)
  || (n =? 186) || ((188 <=? n) && (n <=? 190))
  || ((192 <=? n) && (n <=? 255) && negb (n =? 215) && negb (n =? 247)).

Definition is_word_opt (c : option ascii) : bool :=
  match c with Some c => is_word c | None => false end.

(** Literal text at the head of [s], case-insensitively; the rest and
    the last character read are handed to the continuation [k]. *)
Fixpoint match_lit (p : str) (prev : option ascii) (s : str)
    (k : option ascii → str → bool) : bool :=
  match p with
  | [] => k prev s
  | a :: p' =>
      match s with
      | c :: s' =>
          bool_decide (lower_char a = lower_char c)
          && match_lit p' (Some c) s' k
      | [] => false
      end
  end.

(** Zero or more characters of [cs], every split tried. *)
Fixpoint match_star (cs : cset) (prev : option ascii) (s : str)
    (k : option ascii → str → bool) : bool :=
  k prev s ||
  match s with
  | c :: s' => cset_mem cs c && match_star cs (Some c) s' k
  | [] => false
  end.

(** [matches r prev s k]: some match of [r] at the head of [s], the
    character before it being [prev], is followed by a suffix that
    [k] accepts.  [re.search] is only tested for truth, so that a match
    exists is all that is observed. *)
Fixpoint matches (r : regex) (prev : option ascii) (s : str)
    (k : option ascii → str → bool) : bool :=
  match r with
  | Lit p => match_lit p prev s k
  | Cls cs =>
      match s with
      | c :: s' => cset_mem cs c && k (Some c) s'
      | [] => false
      end
  | Star cs => match_star cs prev s k
  | Plus cs =>
      match s with
      | c :: s' => cset_mem cs c && match_star cs (Some c) s' k
      | [] => false
      end
  | WordB => xorb (is_word_opt prev) (is_word_opt (head s)) && k prev s
  | Seq r1 r2 => matches r1 prev s (fun prev' s' => matches r2 prev' s' k)
  | Alt r1 r2 => matches r1 prev s k || matches r2 prev s k
  end.

(** The scan of [re.search]: a match starting at some position. *)
Fixpoint search_from (r : regex) (prev : option ascii) (s : str) : bool :=
  matches r prev s (fun _ _ => true) ||
  match s with
  | c :: s' => search_from r (Some c) s'
  | [] => false
  end.

(** [bool(re.search(r, s, re.IGNORECASE))] *)
Definition search (r : regex) (s : str) : bool := search_from r None s.

(** Alternative of literals, [(?:a|b|...)]. *)
Fixpoint alts (l : list string) : regex :=
  match l with
  | [] => Lit []
  | [a] => Lit (lit a)
  | a :: l' => Alt (Lit (lit a)) (alts l')
  end.

(** Sequence of several expressions. *)
Fixpoint seqs (l : list regex) : regex :=
  match l with
  | [] => Lit []
  | [r] => r
  | r :: l' => Seq r (seqs l')
  end.

End Re.
Import Re.

(** ** The analyzer object *)

(** The attributes that [__init__] sets on [self]. *)
Record MeetingNotesAnalyzer : Type := {
  action_patterns : list regex;
  decision_patterns : list regex;
  question_patterns : list regex
}.

Module Patterns.

Definition terminators : str := lit ".!?".
Definition spaces : regex := Plus Space.
(** [([^.!?]+)] *)
Definition rest : regex := Plus (NoneOf terminators).

(** [self.action_patterns], lines 33-38. *)
Definition action : list regex := [
  (* \b(?:will|should|must|need to|have to|going to)\s+([^.!?]+) *)
  seqs [WordB; alts ["will"; "should"; "must"; "need to"; "have to";
                     "going to"]; spaces; rest];
  (* \b(?:action|task|todo|follow up|next step)[:]\s*([^.!?]+) *)
  seqs [WordB; alts ["action"; "task"; "todo"; "follow up"; "next step"];
        Cls (OneOf (lit ":")); Star Space; rest];
  (* \b([A-Z][a-z]+\s+(?:will|should|must|needs to))\s+([^.!?]+) *)
  seqs [WordB; Cls (Range "A" "Z"); Plus (Range "a" "z"); spaces;
        alts ["will"; "should"; "must"; "needs to"]; spaces; rest];
  (* \b(?:assign|delegate|responsible for)\s+([^.!?]+) *)
  seqs [WordB; alts ["assign"; "delegate"; "responsible for"]; spaces; rest]
].

(** [self.decision_patterns], lines 40-45. *)
Definition decision : list regex := [
  (* \b(?:decided|agreed|resolved|concluded|determined)\s+(?:to|that)\s+([^.!?]+) *)
  seqs [WordB; alts ["decided"; "agreed"; "resolved"; "concluded";
                     "determined"]; spaces; alts ["to"; "that"]; spaces;
        rest];
  (* \b(?:we|they|it was)\s+(?:decided|agreed|resolved)\s+([^.!?]+) *)
  seqs [WordB; alts ["we"; "they"; "it was"]; spaces;
        alts ["decided"; "agreed"; "resolved"]; spaces; rest];
  (* \b(?:decision|conclusion|agreement)[:]\s*([^.!?]+) *)
  seqs [WordB; alts ["decision"; "conclusion"; "agreement"];
        Cls (OneOf (lit ":")); Star Space; rest];
  (* \b(?:final|official)\s+(?:decision|call|verdict)\s+([^.!?]+) *)
  seqs [WordB; alts ["final"; "official"]; spaces;
        alts ["decision"; "call"; "verdict"]; spaces; rest]
].

(** [self.question_patterns], lines 47-52. *)
Definition question : list regex := [
  (* ([^.!?]*\?) *)
  seqs [Star (NoneOf terminators); Lit (lit "?")];
  (* \b(?:question|ask|wondering|unclear|unsure)\s+(?:about|if|whether)\s+([^.!?]+) *)
  seqs [WordB; alts ["question"; "ask"; "wondering"; "unclear"; "unsure"];
        spaces; alts ["about"; "if"; "whether"]; spaces; rest];
  (* \b(?:what|how|when|where|why|who)\s+([^.!?]+\?) *)
  seqs [WordB; alts ["what"; "how"; "when"; "where"; "why"; "who"];
        spaces; rest; Lit (lit "?")];
  (* \b(?:need to clarify|need clarification|open item)\s+([^.!?]+) *)
  seqs [WordB; alts ["need to clarify"; "need clarification"; "open item"];
        spaces; rest]
].

End Patterns.

(** [MeetingNotesAnalyzer()] *)
Definition __init__ : MeetingNotesAnalyzer := {|
  action_patterns := Patterns.action;
  decision_patterns := Patterns.decision;
  question_patterns := Patterns.question
|}.

(** [_check_patterns]: the text matches one of the patterns, anywhere. *)
Fixpoint _check_patterns (text : str) (patterns : list regex) : bool :=
  match patterns with
  | [] => false
  | pattern :: patterns' =>
      if search pattern text then true else _check_patterns text patterns'
  end.

(** ** The annotation engine (spaCy) *)

(** A token of a document, with the attributes the analyzer reads. *)
Record Token : Type := {
  text : str;
  pos_ : str;
  tag_ : str;
  lemma_ : str;
  ent_type_ : str
}.

(** A document: its tokens ([doc[i]], [len(doc)], iteration) and the text
    of each of its sentences ([sent.text for sent in doc.sents]). *)
Record Doc : Type := {
  tokens : list Token;
  sents : list str
}.

(** The language object: [nlp(text)] annotates a text, or raises. *)
Definition Nlp : Type := str → option Doc.

(** An engine that returns a document for every text. *)
Definition Language : Type := str → Doc.

Definition returning (model : Language) : Nlp := fun text => Some (model text).

Coercion returning : Language >-> Nlp.

(** spaCy's guard on the length of the text: [nlp(text)] raises
    ValueError (E088) when [len(text) > nlp.max_length], and annotates the
    text otherwise. *)
Definition limited (max_length : N) (model : Language) : Nlp :=
  fun text =>
    if N.of_nat (length text) <=? max_length then Some (model text) else None.

(** [nlp.max_length] as spaCy sets it. *)
Definition default_max_length : N := 1000000.

(** What lines 10-20 find when the module is loaded; the engine of
    [Loaded] is one that returns on every text. *)
Inductive startup : Type :=
| ImportError                  (* spacy is not installed *)
| OSError                      (* spacy is, the model en_core_web_sm is not *)
| Loaded (model : Language).

(** The module-level names [SPACY_AVAILABLE] and [nlp]; [nlp] is bound
    only when [spacy.load] returned. *)
Record Globals : Type := {
  SPACY_AVAILABLE : bool;
  nlp : option Nlp
}.

Definition module_init (s : startup) : Globals :=
  match s with
  | ImportError => {| SPACY_AVAILABLE := false; nlp := None |}
  | OSError => {| SPACY_AVAILABLE := false; nlp := None |}
  | Loaded model => {| SPACY_AVAILABLE := true; nlp := Some (model : Nlp) |}
  end.

(** The globals after a start-up that loaded the engine [engine], which
    may raise. *)
Definition loaded (engine : Nlp) : Globals :=
  {| SPACY_AVAILABLE := true; nlp := Some engine |}.

(** ** Python control flow in the error monad *)

Module Py.

(** [doc[i]]: IndexError out of range. *)
Definition getitem (doc : Doc) (i : nat) : option Token := tokens doc !! i.

(** [len(doc)] and the truth value of a document, [len(doc) > 0]. *)
Definition len (doc : Doc) : nat := length (tokens doc).
Definition truthy (doc : Doc) : bool := negb (Nat.eqb (len doc) 0).

(** [a and b], the right operand evaluated only when the left holds. *)
Definition and_then (a : bool) (b : option bool) : option bool :=
  if a then b else Some false.

(** [for i, x in enumerate(l): if body: return True], counting from
    [i]; [Some false] when the loop runs to its end. *)
Fixpoint for_enumerate {A} (body : nat → A → option bool) (i : nat)
    (l : list A) : option bool :=
  match l with
  | [] => Some false
  | x :: l' =>
      b ← body i x;
      if b : bool then Some true else for_enumerate body (S i) l'
  end.

(** [for x in l: state = body(state, x)], an exception leaving the loop. *)
Fixpoint for_each {A S} (body : S → A → option S) (s : S) (l : list A)
    : option S :=
  match l with
  | [] => Some s
  | x :: l' => s' ← body s x; for_each body s' l'
  end.

(** [results[key].append(x)]: KeyError when [key] is not bound. *)
Definition append (key : string) (x : str)
    (results : gmap string (list str)) : option (gmap string (list str)) :=
  l ← results !! key;
  Some (<[key := l ++ [x]]> results).

End Py.
Import Py.

(** The dict [{"actions": a, "decisions": d, "questions": q}]. *)
Definition results_dict (a d q : list str) : gmap string (list str) :=
  <["questions" := q]> (<["decisions" := d]> (<["actions" := a]> ∅)).

(** [{"actions": [], "decisions": [], "questions": []}] *)
Definition empty_results : gmap string (list str) := results_dict [] [] [].

(** ** The category tests of the annotation-based strategy *)

Definition question_words : list str :=
  map lit ["what"; "how"; "when"; "where"; "why"; "who"; "which"; "whose"].

Definition uncertainty_phrases : list str :=
  map lit ["unclear"; "unsure"; "not sure"; "question"; "wondering";
           "need clarification"; "open item"; "to be determined"; "tbd"].

Definition aux_verbs : list str :=
  map lit ["do"; "does"; "did"; "can"; "could"; "will"; "would"; "should"].

(** [_is_question], lines 86-110. *)
Definition _is_question (sentence : str) (doc : Doc) : option bool :=
  if contains (lit "?") sentence then Some true else
  first_token ← (if truthy doc
                 then t ← getitem doc 0; Some (lower (text t))
                 else Some []);
  if mem first_token question_words then Some true else
  let sentence_lower := lower sentence in
  if any_in uncertainty_phrases sentence_lower then Some true else
  aux ← and_then (truthy doc)
           (t ← getitem doc 0;
            and_then (mem (lower (text t)) aux_verbs)
              (t' ← getitem doc 0;
               Some (bool_decide (pos_ t' = lit "AUX"))));
  if aux : bool then Some true else Some false.

Definition decision_verbs : list str :=
  map lit ["decided"; "agreed"; "resolved"; "concluded"; "determined";
           "approved"; "confirmed"; "finalized"; "settled"].

Definition decision_nouns : list str :=
  map lit ["decision"; "agreement"; "resolution"; "conclusion";
           "approval"; "confirmation"; "verdict"; "ruling"].

Definition passive_indicators : list str :=
  map lit ["it was decided"; "it was agreed"; "it was resolved"].

(** [_is_decision], lines 112-140. *)
Definition _is_decision (sentence : str) (doc : Doc) : option bool :=
  let sentence_lower := lower sentence in
  if any_in decision_verbs sentence_lower then Some true else
  if any_in decision_nouns sentence_lower then Some true else
  if any_in passive_indicators sentence_lower then Some true else
  for_enumerate
    (fun _ token =>
       Some (bool_decide (pos_ token = lit "VERB")
             && mem (tag_ token) [lit "VBD"; lit "VBN"]
             && mem (lemma_ token) decision_verbs))
    0%nat (tokens doc).

Definition action_indicators : list str :=
  map lit ["will"; "should"; "must"; "need to"; "have to"; "going to";
           "action"; "task"; "todo"; "assign"; "responsible"; "follow up";
           "next step"; "deliverable"; "owner"].

Definition modal_obligations : list str :=
  map lit ["should"; "must"; "need"; "have"].

(** [_is_action], lines 142-181. *)
Definition _is_action (sentence : str) (doc : Doc) : option bool :=
  let sentence_lower := lower sentence in
  if any_in action_indicators sentence_lower then Some true else
  imperative ← (if truthy doc && Nat.ltb 0 (len doc)
                then first_token ← getitem doc 0;
                     Some (bool_decide (pos_ first_token = lit "VERB")
                           && bool_decide (tag_ first_token = lit "VB"))
                else Some false);
  if imperative : bool then Some true else
  future ← for_enumerate
    (fun i token =>
       if bool_decide (lower (text token) = lit "will")
          && Nat.ltb (i + 1) (len doc)
       then next_token ← getitem doc (i + 1);
            Some (bool_decide (pos_ next_token = lit "VERB"))
       else Some false)
    0%nat (tokens doc);
  if future : bool then Some true else
  modal ← for_enumerate
    (fun _ token =>
       Some (mem (lower (text token)) modal_obligations
             && mem (pos_ token) [lit "VERB"; lit "AUX"]))
    0%nat (tokens doc);
  if modal : bool then Some true else
  assigned ← for_enumerate
    (fun i token =>
       if bool_decide (ent_type_ token = lit "PERSON")
          && Nat.ltb (i + 1) (len doc)
       then next_token ← getitem doc (i + 1);
            Some (mem (lower (text next_token))
                    [lit "will"; lit "should"; lit "must"; lit "to"])
       else Some false)
    0%nat (tokens doc);
  if assigned : bool then Some true else Some false.

(** ** The two strategies *)

(** [analyze_with_patterns], lines 183-203. *)
Definition analyze_with_patterns (self : MeetingNotesAnalyzer) (text : str)
    : option (gmap string (list str)) :=
  let results := empty_results in
  let lines := split "010"%char text in
  results ← for_each
    (fun results line =>
       let line := strip line in
       if bool_decide (line = []) then Some results else
       if _check_patterns line (question_patterns self)
       then append "questions" line results
       else if _check_patterns line (decision_patterns self)
       then append "decisions" line results
       else if _check_patterns line (action_patterns self)
       then append "actions" line results
       else Some results)
    results lines;
  Some results.

(** [[sent.text.strip() for sent in doc.sents if sent.text.strip()]] *)
Definition sentences_of (doc : Doc) : list str :=
  omap (fun sent => if bool_decide (strip sent = []) then None
                    else Some (strip sent)) (sents doc).

(** [analyze_with_spacy], lines 54-84.  Reading the global [nlp] while it
    is unbound is a NameError; the calls [nlp(text)] and [nlp(sentence)]
    are not guarded, so what the engine raises leaves the method. *)
Definition analyze_with_spacy (g : Globals) (self : MeetingNotesAnalyzer)
    (text : str) : option (gmap string (list str)) :=
  if negb (SPACY_AVAILABLE g) then analyze_with_patterns self text else
  nlp ← nlp g;
  doc ← nlp text;
  let results := empty_results in
  let sentences := sentences_of doc in
  results ← for_each
    (fun results sentence =>
       sentence_doc ← nlp sentence;
       is_question ← _is_question sentence sentence_doc;
       is_decision ← _is_decision sentence sentence_doc;
       is_action ← _is_action sentence sentence_doc;
       if is_question : bool then append "questions" sentence results
       else if is_decision : bool then append "decisions" sentence results
       else if is_action : bool then append "actions" sentence results
       else Some results)
    results sentences;
  Some (fromkeys <$> (results : gmap string (list str))).

(** ** The process: two successive calls

    The engine is called as a method of one analyzer object in one
    process.  What a call can reach in the process is the module's
    globals and the attributes of [self]; its other variables are local
    to the call. *)

Record Process : Type := {
  globals : Globals;
  analyzer : MeetingNotesAnalyzer
}.

(** A computation of the process: a value and the process after it. *)
Definition Run (A : Type) : Type := Process → A * Process.

Definition ret {A} (x : A) : Run A := fun p => (x, p).

Definition bind {A B} (m : Run A) (k : A → Run B) : Run B :=
  fun p => let (x, p') := m p in k x p'.

(** The same computation two times in a row. *)
Definition twice {A} (m : Run A) : Run (A * A) :=
  bind m (fun r1 => bind m (fun r2 => ret (r1, r2))).

(** The methods, statement by statement, as computations of the process:
    a statement returns a value or raises, and hands the process on to
    the next. *)
Module InProcess.

Definition Method (A : Type) : Type := Run (option A).

(** A statement followed by the rest of the body; an exception ends the
    body. *)
Definition and_then {A B} (m : Method A) (k : A → Method B) : Method B :=
  bind m (fun r => match r with Some x => k x | None => ret None end).

Notation "'let!' x ':=' m 'in' k" := (and_then m (fun x => k))
  (at level 10, x name, k at level 200).

(** [return x] *)
Definition returns {A} (x : A) : Method A := ret (Some x).

(** An operation on the values of local variables, which may raise. *)
Definition local {A} (o : option A) : Method A := ret o.

(** [self.attr], read. *)
Definition self_attr {A} (attr : MeetingNotesAnalyzer → A) : Method A :=
  fun p => (Some (attr (analyzer p)), p).

(** A module-level name, read. *)
Definition global {A} (name : Globals → A) : Method A :=
  fun p => (Some (name (globals p)), p).

(** [for x in l: state = body(state, x)] *)
Fixpoint for_each {A S} (body : S → A → Method S) (s : S) (l : list A)
    : Method S :=
  match l with
  | [] => returns s
  | x :: l' => let! s' := body s x in for_each body s' l'
  end.

(** [self._check_patterns(text, patterns)], lines 205-210. *)
Definition _check_patterns (text : str) (patterns : list regex)
    : Method bool :=
  returns (_check_patterns text patterns).

(** [self.analyze_with_patterns(text)], lines 183-203. *)
Definition analyze_with_patterns (text : str)
    : Method (gmap string (list str)) :=
  let results := empty_results in
  let lines := split "010"%char text in
  let! results := for_each
    (fun results line =>
       let line := strip line in
       if bool_decide (line = []) then returns results else
       let! patterns := self_attr question_patterns in
       let! found := _check_patterns line patterns in
       if found : bool then local (append "questions" line results) else
       let! patterns := self_attr decision_patterns in
       let! found := _check_patterns line patterns in
       if found : bool then local (append "decisions" line results) else
       let! patterns := self_attr action_patterns in
       let! found := _check_patterns line patterns in
       if found : bool then local (append "actions" line results) else
       returns results)
    results lines in
  returns results.

(** [self.analyze_with_spacy(text)], lines 54-84. *)
Definition analyze_with_spacy (text : str)
    : Method (gmap string (list str)) :=
  let! available := global SPACY_AVAILABLE in
  if negb available then analyze_with_patterns text else
  let! bound := global nlp in
  let! nlp := local bound in
  let! doc := local (nlp text) in
  let results := empty_results in
  let sentences := sentences_of doc in
  let! results := for_each
    (fun results sentence =>
       let! sentence_doc := local (nlp sentence) in
       let! is_question := local (_is_question sentence sentence_doc) in
       let! is_decision := local (_is_decision sentence sentence_doc) in
       let! is_action := local (_is_action sentence sentence_doc) in
       if is_question : bool
       then local (append "questions" sentence results)
       else if is_decision : bool
       then local (append "decisions" sentence results)
       else if is_action : bool
       then local (append "actions" sentence results)
       else returns results)
    results sentences in
  returns (fromkeys <$> (results : gmap string (list str))).

End InProcess.

(** The units of the pattern-matching strategy: the lines of the text,
    stripped, the empty ones dropped. *)
Definition units_of_lines (text : str) : list str :=
  filter (fun line => line ≠ []) (strip <$> split "010"%char text).


(** ** The placement of a unit *)

(** The if/elif chain of lines 73-78 and 194-201, given how the three
    tests of the strategy come out for a unit. *)
Definition place (tq td ta : str → bool)
    (results : gmap string (list str)) (u : str)
    : option (gmap string (list str)) :=
  if tq u then append "questions" u results
  else if td u then append "decisions" u results
  else if ta u then append "actions" u results
  else Some results.

(** The units that the chain sends to each list. *)
Definition to_questions (tq : str → bool) (u : str) : Prop := tq u = true.
Definition to_decisions (tq td : str → bool) (u : str) : Prop :=
  tq u = false ∧ td u = true.
Definition to_actions (tq td ta : str → bool) (u : str) : Prop :=
  tq u = false ∧ td u = false ∧ ta u = true.

#[global] Instance to_questions_dec tq u : Decision (to_questions tq u).
Proof. unfold to_questions. apply _. Defined.
#[global] Instance to_decisions_dec tq td u : Decision (to_decisions tq td u).
Proof. unfold to_decisions. apply _. Defined.
#[global] Instance to_actions_dec tq td ta u :
  Decision (to_actions tq td ta u).
Proof. unfold to_actions. apply _. Defined.

(** The three pattern groups as tests of a line. *)
Definition pq (self : MeetingNotesAnalyzer) (u : str) : bool :=
  _check_patterns u (question_patterns self).
Definition pd (self : MeetingNotesAnalyzer) (u : str) : bool :=
  _check_patterns u (decision_patterns self).
Definition pa (self : MeetingNotesAnalyzer) (u : str) : bool :=
  _check_patterns u (action_patterns self).

(** The three annotation tests as they come out for a sentence, which is
    annotated on its own ([nlp(sentence)]). *)
Definition sq (model : Language) (s : str) : bool :=
  bool_decide (_is_question s (model s) = Some true).
Definition sd (model : Language) (s : str) : bool :=
  bool_decide (_is_decision s (model s) = Some true).
Definition sa (model : Language) (s : str) : bool :=
  bool_decide (_is_action s (model s) = Some true).

(** ** The vocabulary of the properties *)

(** [p] occurs in [s]: [s] is some text, [p], some text. *)
Definition occurs_in (p s : str) : Prop := ∃ pre post, s = pre ++ p ++ post.

(** Whitespace only. *)
Definition blank (s : str) : Prop := Forall (fun c => isspace c = true) s.

(** A unit goes to the list of the first test that it passes, question
    before decision before action, and to no other list; a unit that
    passes no test goes to none. *)
Definition sorted_by_priority (tq td ta : str → bool)
    (units a d q : list str) : Prop :=
  ∀ u, u ∈ units →
    (tq u = true → u ∈ q ∧ (u ∉ d) ∧ (u ∉ a))
    ∧ (tq u = false → td u = true → u ∈ d ∧ (u ∉ q) ∧ (u ∉ a))
    ∧ (tq u = false → td u = false → ta u = true →
       u ∈ a ∧ (u ∉ q) ∧ (u ∉ d))
    ∧ (tq u = false → td u = false → ta u = false →
       (u ∉ q) ∧ (u ∉ d) ∧ (u ∉ a)).

(** No text is in two of the three lists. *)
Definition mutually_exclusive (a d q : list str) : Prop :=
  ∀ u, ¬ (u ∈ q ∧ u ∈ d) ∧ ¬ (u ∈ q ∧ u ∈ a) ∧ ¬ (u ∈ d ∧ u ∈ a).

(** ** The texts and engines of the scenarios *)

Definition newline : ascii := "010"%char.

Definition scenario1 : str := lit "We decided to ship on Friday.".

Definition scenario5 : str :=
  lit "Action: update the wiki." ++ [newline] ++ lit "Action: update the wiki.".

Definition blank_text : str := lit "  " ++ [newline] ++ lit " ".

Definition undecided_but_willing : str := lit "She is Undecided but Willing.".

(** An engine that takes every text as one sentence of one token "We". *)
Definition one_sentence_model : Language :=
  fun s => {| tokens := [{| text := lit "We"; pos_ := lit "PRON";
                            tag_ := lit "PRP"; lemma_ := lit "we";
                            ent_type_ := [] |}];
              sents := [s] |}.

(** An engine that takes every text as one sentence and finds no token. *)
Definition whole_text_model : Language :=
  fun s => {| tokens := []; sents := [s] |}.

(** An engine that takes every line as a sentence and finds no token. *)
Definition line_model : Language :=
  fun s => {| tokens := []; sents := split newline s |}.

(** A million and one spaces. *)
Definition long_blank_text : str := replicate (N.to_nat 1000001) " "%char.

(** Characters of ASCII only. *)
Definition ascii_only (s : str) : Prop := Forall (fun c => code c < 128) s.

(** Two sentences, a line each. *)
Definition two_sentences : str :=
  lit "We decided to ship on Friday." ++ [newline]
  ++ lit "Who owns the release?".

Definition mixed_case_notes : str :=
  lit "ACTION: Call Bob" ++ [newline] ++ lit "We DECIDED to ship."
  ++ [newline] ++ lit "Who owns it?".

(** ** The callers of the engine *)

(** [sep.join(l)] *)
Fixpoint join (sep : str) (l : list str) : str :=
  match l with
  | [] => []
  | [x] => x
  | x :: l' => x ++ sep ++ join sep l'
  end.

(** The text that [upload_file] takes from a .docx document, line 384:
    ['\n'.join([paragraph.text for paragraph in doc.paragraphs])]. *)
Definition docx_text (paragraphs : list str) : str := join [newline] paragraphs.

(** What a click on "Analyze" leads to: the warning of line 463, the
    results handed to [finish_analysis], or [analysis_error]. *)
Inductive notes_outcome : Type :=
| Warning
| Finished (results : gmap string (list str))
| Failed.

(** The data path of [analyze_notes], lines 460-476, [input] being the
    content of the text widget: the text is stripped, an empty text is
    refused, and the analysis runs under try/except.  The status line and
    the hand-over between threads are left out. *)
Definition analyze_notes (g : Globals) (self : MeetingNotesAnalyzer)
    (input : str) : notes_outcome :=
  let text := strip input in
  if bool_decide (text = []) then Warning else
  match analyze_with_spacy g self text with
  | Some results => Finished results
  | None => Failed
  end.

(** No whitespace at either end. *)
Definition trimmed (s : str) : Prop :=
  (∀ c, head s = Some c → isspace c = false)
  ∧ (∀ c, last s = Some c → isspace c = false).

(** The units that pass none of the three tests. *)
Definition to_none (tq td ta : str → bool) (u : str) : Prop :=
  tq u = false ∧ td u = false ∧ ta u = false.

#[global] Instance to_none_dec tq td ta u : Decision (to_none tq td ta u).
Proof. unfold to_none. apply _. Defined.

(** Two continuations that agree up to the case of what is left. *)
Definition same_on_lower (k k' : option ascii → str → bool) : Prop :=
  ∀ prev s, k' (lower_char <$> prev) (lower s) = k prev s.

(** * Properties *)

(** ** Dicts with the three keys *)

Lemma append_actions a d q x :
  append "actions" x (results_dict a d q) = Some (results_dict (a ++ [x]) d q).
Proof.
  unfold append, results_dict. simplify_map_eq.
  apply (f_equal Some), map_eq; intros k.
  repeat (rewrite lookup_insert; case_decide; simplify_eq; try done).
Qed.

Lemma append_decisions a d q x :
  append "decisions" x (results_dict a d q)
  = Some (results_dict a (d ++ [x]) q).
Proof.
  unfold append, results_dict. simplify_map_eq.
  apply (f_equal Some), map_eq; intros k.
  repeat (rewrite lookup_insert; case_decide; simplify_eq; try done).
Qed.

Lemma append_questions a d q x :
  append "questions" x (results_dict a d q)
  = Some (results_dict a d (q ++ [x])).
Proof.
  unfold append, results_dict. simplify_map_eq.
  apply (f_equal Some), map_eq; intros k.
  repeat (rewrite lookup_insert; case_decide; simplify_eq; try done).
Qed.

Lemma dom_results_dict a d q :
  dom (results_dict a d q)
  = ({["actions"; "decisions"; "questions"]} : gset string).
Proof.
  unfold results_dict. rewrite !dom_insert_L, dom_empty_L. set_solver.
Qed.

Lemma fmap_results_dict (f : list str → list str) a d q :
  f <$> results_dict a d q = results_dict (f a) (f d) (f q).
Proof.
  unfold results_dict. by rewrite !fmap_insert, fmap_empty.
Qed.

Lemma results_dict_inj a d q a' d' q' :
  results_dict a d q = results_dict a' d' q' → a = a' ∧ d = d' ∧ q = q'.
Proof.
  intros H. unfold results_dict in H.
  pose proof (f_equal (.!! "actions") H) as Ha.
  pose proof (f_equal (.!! "decisions") H) as Hd.
  pose proof (f_equal (.!! "questions") H) as Hq.
  simplify_map_eq. done.
Qed.

(** ** The placement loop shared by the two strategies *)

Lemma for_each_cons {A S} (body : S → A → option S) s x l :
  for_each body s (x :: l) = body s x ≫= fun s' => for_each body s' l.
Proof. reflexivity. Qed.

Lemma for_each_ext {A S} (body body' : S → A → option S) s l :
  (∀ s x, x ∈ l → body s x = body' s x) →
  for_each body s l = for_each body' s l.
Proof.
  revert s. induction l as [|x l IH]; intros s H; [done|].
  rewrite !for_each_cons, H by left.
  destruct (body' s x); [|done]. simpl. apply IH.
  intros s' y Hy. apply H. by right.
Qed.

Section Placement.

(** The three tests of a strategy, as they come out for a unit. *)
Variables tq td ta : str → bool.

Lemma place_cases results u :
  place tq td ta results u =
    if tq u then append "questions" u results
    else if td u then append "decisions" u results
    else if ta u then append "actions" u results
    else Some results.
Proof. reflexivity. Qed.

Lemma for_each_place a d q (l : list str) :
  for_each (place tq td ta) (results_dict a d q) l
  = Some (results_dict (a ++ filter (to_actions tq td ta) l)
            (d ++ filter (to_decisions tq td) l)
            (q ++ filter (to_questions tq) l)).
Proof.
  revert a d q. induction l as [|u l IH]; intros a d q.
  - simpl. by rewrite !app_nil_r.
  - rewrite for_each_cons, place_cases.
    destruct (tq u) eqn:Hq;
      [|destruct (td u) eqn:Hd; [|destruct (ta u) eqn:Ha]].
    + rewrite append_questions. simpl. rewrite IH.
      rewrite (filter_cons_True (to_questions tq)) by done.
      rewrite (filter_cons_False (to_decisions tq td))
        by (unfold to_decisions; intros [? ?]; congruence).
      rewrite (filter_cons_False (to_actions tq td ta))
        by (unfold to_actions; intros [? ?]; congruence).
      by rewrite <- app_assoc.
    + rewrite append_decisions. simpl. rewrite IH.
      rewrite (filter_cons_False (to_questions tq))
        by (unfold to_questions; congruence).
      rewrite (filter_cons_True (to_decisions tq td)) by done.
      rewrite (filter_cons_False (to_actions tq td ta))
        by (unfold to_actions; intros (? & ? & ?); congruence).
      by rewrite <- app_assoc.
    + rewrite append_actions. simpl. rewrite IH.
      rewrite (filter_cons_False (to_questions tq))
        by (unfold to_questions; congruence).
      rewrite (filter_cons_False (to_decisions tq td))
        by (unfold to_decisions; intros [? ?]; congruence).
      rewrite (filter_cons_True (to_actions tq td ta)) by done.
      by rewrite <- app_assoc.
    + simpl. rewrite IH.
      rewrite (filter_cons_False (to_questions tq))
        by (unfold to_questions; congruence).
      rewrite (filter_cons_False (to_decisions tq td))
        by (unfold to_decisions; intros [? ?]; congruence).
      rewrite (filter_cons_False (to_actions tq td ta))
        by (unfold to_actions; intros (? & ? & ?); congruence).
      done.
Qed.

End Placement.

(** ** The category tests never raise *)

Lemma getitem_lt doc i : (i < len doc)%nat → is_Some (getitem doc i).
Proof. apply lookup_lt_is_Some_2. Qed.

Lemma for_enumerate_total {A} (body : nat → A → option bool) i l :
  (∀ i x, is_Some (body i x)) → is_Some (for_enumerate body i l).
Proof.
  intros Hbody. revert i. induction l as [|x l IH]; intros i; simpl; [eauto|].
  destruct (Hbody i x) as [b ->]. simpl. destruct b; eauto.
Qed.

(** The guarded read [doc[i + 1]] of the two scanning loops. *)
Lemma guarded_next_total doc (c : bool) (f : Token → bool) i :
  is_Some (if c && Nat.ltb (i + 1) (len doc)
           then next_token ← getitem doc (i + 1); Some (f next_token)
           else Some false).
Proof.
  destruct c; simpl; [|eauto].
  destruct (Nat.ltb (i + 1) (len doc)) eqn:Hlt; [|eauto].
  apply Nat.ltb_lt, getitem_lt in Hlt. destruct Hlt as [t ->]. simpl. eauto.
Qed.

Lemma bind_ret {A B} (x : A) (k : A → option B) : Some x ≫= k = k x.
Proof. reflexivity. Qed.

Lemma truthy_getitem doc : truthy doc = true → is_Some (getitem doc 0).
Proof.
  unfold truthy. intros H. apply getitem_lt.
  destruct (len doc); [done | lia].
Qed.

(** Names the value of the computation bound first in the goal. *)
Ltac bind_total b :=
  match goal with
  | |- context [?m ≫= _] => assert (is_Some m) as [b ->]; [|rewrite bind_ret]
  end.

Lemma _is_question_total sentence doc : is_Some (_is_question sentence doc).
Proof.
  unfold _is_question. case_match; [eauto|].
  bind_total first_token.
  { destruct (truthy doc) eqn:Ht; [|eauto].
    destruct (truthy_getitem _ Ht) as [t ->]. rewrite bind_ret. eauto. }
  case_match; [eauto|]. case_match; [eauto|].
  bind_total aux.
  { unfold and_then. destruct (truthy doc) eqn:Ht; [|eauto].
    destruct (truthy_getitem _ Ht) as [t ->]. rewrite bind_ret.
    case_match; [rewrite bind_ret|]; eauto. }
  destruct aux; eauto.
Qed.

Lemma _is_decision_total sentence doc : is_Some (_is_decision sentence doc).
Proof.
  unfold _is_decision. repeat (case_match; [eauto|]).
  apply for_enumerate_total. eauto.
Qed.

Lemma _is_action_total sentence doc : is_Some (_is_action sentence doc).
Proof.
  unfold _is_action. case_match; [eauto|].
  bind_total imperative.
  { destruct (truthy doc) eqn:Ht; [|eauto].
    destruct (truthy_getitem _ Ht) as [t ->]. rewrite bind_ret.
    case_match; eauto. }
  destruct imperative; [eauto|].
  bind_total future.
  { apply for_enumerate_total. intros i x. apply guarded_next_total. }
  destruct future; [eauto|].
  bind_total modal.
  { apply for_enumerate_total. eauto. }
  destruct modal; [eauto|].
  bind_total assigned.
  { apply for_enumerate_total. intros i x.
    apply (guarded_next_total doc _
             (fun t => mem (lower (text t))
                         [lit "will"; lit "should"; lit "must"; lit "to"])). }
  destruct assigned; eauto.
Qed.

(** ** What each strategy returns *)

Section PatternForm.

Variable self : MeetingNotesAnalyzer.

Lemma lines_loop results (lines : list str) :
  for_each
    (fun results line =>
       let line := strip line in
       if bool_decide (line = []) then Some results else
       if _check_patterns line (question_patterns self)
       then append "questions" line results
       else if _check_patterns line (decision_patterns self)
       then append "decisions" line results
       else if _check_patterns line (action_patterns self)
       then append "actions" line results
       else Some results)
    results lines
  = for_each (place (pq self) (pd self) (pa self)) results
      (filter (fun line => line ≠ []) (strip <$> lines)).
Proof.
  revert results. induction lines as [|line lines IH]; intros results.
  - reflexivity.
  - rewrite for_each_cons, fmap_cons. cbv zeta.
    destruct (bool_decide (strip line = [])) eqn:He.
    + apply bool_decide_eq_true in He.
      rewrite filter_cons_False by (intros H; by apply H).
      rewrite bind_ret. apply IH.
    + apply bool_decide_eq_false in He.
      rewrite filter_cons_True by done.
      rewrite for_each_cons, place_cases. unfold pq, pd, pa.
      destruct (if _check_patterns (strip line) _ then _ else _); [|done].
      simpl. apply IH.
Qed.

(** The pattern-matching strategy sorts the units by the first group
    that matches, in the order of the text, and keeps repetitions. *)
Lemma analyze_with_patterns_form text :
  analyze_with_patterns self text
  = Some (results_dict
            (filter (to_actions (pq self) (pd self) (pa self))
               (units_of_lines text))
            (filter (to_decisions (pq self) (pd self))
               (units_of_lines text))
            (filter (to_questions (pq self)) (units_of_lines text))).
Proof.
  unfold analyze_with_patterns. cbv zeta.
  rewrite lines_loop. unfold empty_results. rewrite for_each_place.
  reflexivity.
Qed.

End PatternForm.

Section AnnotationForm.

Variable model : Language.

Lemma test_value (t : option bool) :
  is_Some t → t = Some (bool_decide (t = Some true)).
Proof. intros [[] ->]; reflexivity. Qed.

Lemma sentence_body results sentence :
  (let sentence_doc := model sentence in
   is_question ← _is_question sentence sentence_doc;
   is_decision ← _is_decision sentence sentence_doc;
   is_action ← _is_action sentence sentence_doc;
   if is_question : bool then append "questions" sentence results
   else if is_decision : bool then append "decisions" sentence results
   else if is_action : bool then append "actions" sentence results
   else Some results)
  = place (sq model) (sd model) (sa model) results sentence.
Proof.
  cbv zeta.
  rewrite (test_value _ (_is_question_total sentence (model sentence))).
  rewrite (test_value _ (_is_decision_total sentence (model sentence))).
  rewrite (test_value _ (_is_action_total sentence (model sentence))).
  rewrite !bind_ret. reflexivity.
Qed.

(** The annotation-based strategy sorts the sentences by the first test
    that passes and then removes the repetitions of each list. *)
Lemma analyze_with_spacy_form self text :
  let sentences := sentences_of (model text) in
  analyze_with_spacy (module_init (Loaded model)) self text
  = Some (results_dict
            (fromkeys (filter (to_actions (sq model) (sd model) (sa model))
                         sentences))
            (fromkeys (filter (to_decisions (sq model) (sd model))
                         sentences))
            (fromkeys (filter (to_questions (sq model)) sentences))).
Proof.
  intros sentences. unfold analyze_with_spacy. simpl. cbv zeta.
  rewrite (for_each_ext _ (place (sq model) (sd model) (sa model)))
    by (intros; apply sentence_body).
  unfold empty_results. rewrite for_each_place. simpl.
  by rewrite fmap_results_dict.
Qed.

End AnnotationForm.

(** ** [dict.fromkeys] keeps the first occurrence of every key *)

Module FromKeys.

Lemma fromkeys_foldl l : fromkeys l = foldl fromkeys_step [] l.
Proof. reflexivity. Qed.

(** Starting from the keys [acc]: they stay in front, and the new keys
    follow in the order in which an empty dict would have taken them. *)
Lemma foldl_step acc l :
  foldl fromkeys_step acc l
  = acc ++ filter (fun y => y ∉ acc) (foldl fromkeys_step [] l).
Proof.
  revert acc. induction l as [|x l IH]; intros acc.
  - simpl. by rewrite app_nil_r.
  - cbn [foldl]. rewrite (IH (fromkeys_step [] x)), (IH (fromkeys_step acc x)).
    unfold fromkeys_step, mem. rewrite (bool_decide_eq_false_2 (x ∈ []))
      by apply not_elem_of_nil.
    cbn [app]. destruct (bool_decide (x ∈ acc)) eqn:Hx.
    + apply bool_decide_eq_true in Hx.
      rewrite filter_cons_False by (intros H; by apply H).
      f_equal. rewrite list_filter_filter. apply list_filter_iff.
      intros y. split; [|tauto]. intros Hy. split; [done|].
      intros ->%list_elem_of_singleton. done.
    + apply bool_decide_eq_false in Hx.
      rewrite filter_cons_True by done.
      rewrite <- app_assoc. cbn [app]. do 2 f_equal.
      rewrite list_filter_filter. apply list_filter_iff.
      intros y. rewrite elem_of_app. tauto.
Qed.

(** The first key stays first; its later occurrences are dropped. *)
Lemma fromkeys_cons x l :
  fromkeys (x :: l) = x :: filter (fun y => y ≠ x) (fromkeys l).
Proof.
  rewrite !fromkeys_foldl. cbn [foldl]. rewrite foldl_step.
  unfold fromkeys_step, mem. rewrite (bool_decide_eq_false_2 (x ∈ []))
    by apply not_elem_of_nil.
  cbn [app]. f_equal. apply list_filter_iff.
  intros y. rewrite list_elem_of_singleton. tauto.
Qed.

Lemma fromkeys_nil : fromkeys [] = [].
Proof. reflexivity. Qed.

Lemma elem_of_fromkeys x l : x ∈ fromkeys l ↔ x ∈ l.
Proof.
  induction l as [|y l IH]; [done|].
  rewrite fromkeys_cons, !elem_of_cons, list_elem_of_filter, IH.
  destruct (decide (x = y)); tauto.
Qed.

Lemma NoDup_fromkeys l : NoDup (fromkeys l).
Proof.
  induction l as [|y l IH]; [constructor|].
  rewrite fromkeys_cons. constructor.
  - rewrite list_elem_of_filter. tauto.
  - by apply NoDup_filter.
Qed.

End FromKeys.

(** ** Substrings, stripping and splitting *)

Module StrFacts.

Lemma startswith_spec p s : startswith p s = true ↔ ∃ post, s = p ++ post.
Proof.
  revert s. induction p as [|a p IH]; intros s.
  - simpl. split; [eauto | done].
  - destruct s as [|b s]; simpl.
    + split; [done | intros [post H]; discriminate].
    + rewrite andb_true_iff, bool_decide_eq_true, IH. split.
      * intros [-> [post ->]]. eauto.
      * intros [post H]. injection H as -> ->. eauto.
Qed.

Lemma contains_spec p s : contains p s = true ↔ occurs_in p s.
Proof.
  unfold occurs_in. induction s as [|c s IH].
  - cbn [contains]. rewrite orb_false_r, startswith_spec. split.
    + intros [post H]. by exists [], post.
    + intros (pre & post & H). symmetry in H.
      apply app_eq_nil in H as [-> H]. eauto.
  - cbn [contains]. rewrite orb_true_iff, startswith_spec, IH. split.
    + intros [[post H] | (pre & post & H)].
      * by exists [], post.
      * exists (c :: pre), post. by rewrite H.
    + intros (pre & post & H). destruct pre as [|c' pre].
      * left. eauto.
      * right. injection H as -> ->. eauto.
Qed.

Lemma occurs_in_trans p q s : occurs_in p q → occurs_in q s → occurs_in p s.
Proof.
  intros (pre & post & ->) (pre' & post' & ->).
  exists (pre' ++ pre), (post ++ post'). by rewrite <- !app_assoc.
Qed.

Lemma contains_trans p q s :
  contains p q = true → contains q s = true → contains p s = true.
Proof. rewrite !contains_spec. apply occurs_in_trans. Qed.

(** A phrase of the table, found in the text, settles [any]. *)
Lemma any_in_intro p phrases s :
  p ∈ phrases → contains p s = true → any_in phrases s = true.
Proof.
  intros Hp Hc. unfold any_in. apply existsb_exists.
  exists p. split; [by apply list_elem_of_In | done].
Qed.

Lemma lstrip_blank s : blank s → lstrip s = [].
Proof. induction 1 as [|c s Hc _ IH]; simpl; [done | by rewrite Hc]. Qed.

Lemma strip_blank s : blank s → strip s = [].
Proof. intros H. unfold strip. by rewrite lstrip_blank. Qed.

Lemma split_blank sep s : blank s → Forall blank (split sep s).
Proof.
  induction 1 as [|c s Hc Hs IH]; simpl.
  - repeat constructor.
  - case_decide.
    + constructor; [constructor | done].
    + destruct (split sep s) as [|piece pieces]; [repeat constructor; done|].
      inversion IH; subst. constructor; [by constructor | done].
Qed.

Lemma occurs_in_blank p s : occurs_in p s → blank s → blank p.
Proof.
  intros (pre & post & ->) H. unfold blank in *.
  rewrite !Forall_app in H. tauto.
Qed.

End StrFacts.
Import StrFacts.

(** ** Shared consequences of the two forms *)

(** Without the annotation capability the annotation-based entry point is
    the pattern-matching strategy (lines 56-57). *)
Lemma spacy_unavailable g self text :
  SPACY_AVAILABLE g = false →
  analyze_with_spacy g self text = analyze_with_patterns self text.
Proof. intros H. unfold analyze_with_spacy. by rewrite H. Qed.

(** Whatever the module found at start-up, the entry point returns a dict
    of the three lists. *)
Lemma analyze_with_spacy_returns s self text :
  ∃ a d q, analyze_with_spacy (module_init s) self text
           = Some (results_dict a d q).
Proof.
  destruct s as [| |model].
  - rewrite spacy_unavailable, analyze_with_patterns_form by done. eauto.
  - rewrite spacy_unavailable, analyze_with_patterns_form by done. eauto.
  - rewrite analyze_with_spacy_form. eauto.
Qed.

(** The lists that the annotation-based strategy returns have no
    repetition: line 82 removes them. *)
Lemma analyze_with_spacy_NoDup model self text a d q :
  analyze_with_spacy (module_init (Loaded model)) self text
  = Some (results_dict a d q) →
  NoDup a ∧ NoDup d ∧ NoDup q.
Proof.
  rewrite analyze_with_spacy_form. cbv zeta. intros H.
  apply (inj Some), results_dict_inj in H as (<- & <- & <-).
  auto using FromKeys.NoDup_fromkeys.
Qed.

(** The three classes of a placement exclude one another. *)
Lemma placement_exclusive (tq td ta : str → bool) u :
  ¬ (to_questions tq u ∧ to_decisions tq td u)
  ∧ ¬ (to_questions tq u ∧ to_actions tq td ta u)
  ∧ ¬ (to_decisions tq td u ∧ to_actions tq td ta u).
Proof.
  unfold to_questions, to_decisions, to_actions.
  repeat split; intros H; destruct_and!; congruence.
Qed.

(** ** The methods leave the process as it was *)

Module Unchanged.

Lemma and_then_unchanged {A B} (m : InProcess.Method A)
    (k : A → InProcess.Method B) (r : option A) (k' : A → option B) p :
  m p = (r, p) → (∀ x, r = Some x → k x p = (k' x, p)) →
  InProcess.and_then m k p = (r ≫= k', p).
Proof.
  intros Hm Hk. unfold InProcess.and_then, bind. rewrite Hm.
  destruct r as [x|]; [by apply Hk | done].
Qed.

Lemma and_then_local {A B} (o : option A) (k : A → InProcess.Method B) p :
  InProcess.and_then (InProcess.local o) k p
  = match o with Some x => k x p | None => (None, p) end.
Proof. unfold InProcess.and_then, InProcess.local, bind, ret. by destruct o. Qed.

Lemma and_then_global {A B} (name : Globals → A)
    (k : A → InProcess.Method B) p :
  InProcess.and_then (InProcess.global name) k p = k (name (globals p)) p.
Proof. reflexivity. Qed.

Lemma and_then_self_attr {A B} (attr : MeetingNotesAnalyzer → A)
    (k : A → InProcess.Method B) p :
  InProcess.and_then (InProcess.self_attr attr) k p
  = k (attr (analyzer p)) p.
Proof. reflexivity. Qed.

Lemma and_then_returns {A B} (x : A) (k : A → InProcess.Method B) p :
  InProcess.and_then (InProcess.returns x) k p = k x p.
Proof. reflexivity. Qed.

(** A loop whose body leaves the process as it was does so too, and
    computes what the loop on the values computes. *)
Lemma for_each_unchanged {A S} (body : S → A → InProcess.Method S)
    (body' : S → A → option S) s l p :
  (∀ s x, body s x p = (body' s x, p)) →
  InProcess.for_each body s l p = (for_each body' s l, p).
Proof.
  intros Hbody. revert s. induction l as [|x l IH]; intros s; [done|].
  cbn [InProcess.for_each for_each].
  apply and_then_unchanged; [apply Hbody | intros s' _; apply IH].
Qed.

Lemma analyze_with_patterns_unchanged text p :
  InProcess.analyze_with_patterns text p
  = (analyze_with_patterns (analyzer p) text, p).
Proof.
  unfold InProcess.analyze_with_patterns, analyze_with_patterns. cbv zeta.
  apply and_then_unchanged; [|done].
  apply for_each_unchanged. intros results line.
  case_bool_decide; [done|].
  unfold InProcess._check_patterns.
  rewrite and_then_self_attr, and_then_returns.
  case_match; [done|].
  rewrite and_then_self_attr, and_then_returns.
  case_match; [done|].
  rewrite and_then_self_attr, and_then_returns.
  by case_match.
Qed.

Lemma analyze_with_spacy_unchanged text p :
  InProcess.analyze_with_spacy text p
  = (analyze_with_spacy (globals p) (analyzer p) text, p).
Proof.
  unfold InProcess.analyze_with_spacy, analyze_with_spacy.
  rewrite and_then_global.
  destruct (SPACY_AVAILABLE (globals p)); cbn [negb];
    [|apply analyze_with_patterns_unchanged].
  rewrite and_then_global, and_then_local.
  destruct (nlp (globals p)) as [engine|]; [|done].
  rewrite and_then_local, bind_ret.
  destruct (engine text) as [doc|]; [|done].
  rewrite bind_ret. cbv zeta.
  apply and_then_unchanged; [|done].
  apply for_each_unchanged. intros results sentence.
  rewrite and_then_local.
  destruct (engine sentence) as [sentence_doc|]; [|done].
  rewrite and_then_local, bind_ret.
  destruct (_is_question sentence sentence_doc) as [is_question|]; [|done].
  rewrite and_then_local, bind_ret.
  destruct (_is_decision sentence sentence_doc) as [is_decision|]; [|done].
  rewrite and_then_local, bind_ret.
  destruct (_is_action sentence sentence_doc) as [is_action|]; [|done].
  rewrite bind_ret. by repeat case_match.
Qed.

End Unchanged.

(** * The scenarios and properties of the specification *)

(** Scenarios 2, 3 and 4 under the pattern-matching strategy. *)
Example scenario2_patterns :
  analyze_with_patterns __init__ (lit "John will send the report by Monday.")
  = Some (results_dict [lit "John will send the report by Monday."] [] []).
Proof. vm_compute. reflexivity. Qed.

Example scenario3_patterns :
  analyze_with_patterns __init__ (lit "What is the budget for Q3?")
  = Some (results_dict [] [] [lit "What is the budget for Q3?"]).
Proof. vm_compute. reflexivity. Qed.

Example scenario4_patterns :
  analyze_with_patterns __init__ (lit "The meeting started at 9am.")
  = Some empty_results.
Proof. vm_compute. reflexivity. Qed.

(** C1.  On the two identical lines of scenario 5 the pattern-matching
    strategy returns the line twice in the actions: it has no counterpart
    of the removal of repetitions that the annotation-based strategy makes
    on line 82, so its lists are not de-duplicated. *)
Theorem scenario5_patterns_repeat :
  analyze_with_patterns __init__ scenario5
  = Some (results_dict
            [lit "Action: update the wiki."; lit "Action: update the wiki."]
            [] []).
Proof. vm_compute. reflexivity. Qed.

Lemma filters_sorted_by_priority tq td ta (f : list str → list str) units :
  (∀ x l, x ∈ f l ↔ x ∈ l) →
  sorted_by_priority tq td ta units
    (f (filter (to_actions tq td ta) units))
    (f (filter (to_decisions tq td) units))
    (f (filter (to_questions tq) units)).
Proof.
  intros Hf u Hu. rewrite !Hf, !list_elem_of_filter.
  unfold to_questions, to_decisions, to_actions.
  intuition congruence.
Qed.

(** C2.  Under both strategies a unit that passes the question test (or
    matches a question pattern) is placed in the questions only, whatever
    the decision and action tests say; the resolution is by the strict
    priority question, then decision, then action, then none. *)
Theorem priority_question_decision_action :
  (∀ self text, ∃ a d q,
      analyze_with_patterns self text = Some (results_dict a d q)
      ∧ sorted_by_priority (pq self) (pd self) (pa self)
          (units_of_lines text) a d q)
  ∧ (∀ model self text, ∃ a d q,
      analyze_with_spacy (module_init (Loaded model)) self text
      = Some (results_dict a d q)
      ∧ sorted_by_priority (sq model) (sd model) (sa model)
          (sentences_of (model text)) a d q).
Proof.
  split.
  - intros self text. do 3 eexists. split.
    + apply analyze_with_patterns_form.
    + by apply (filters_sorted_by_priority _ _ _ (fun l => l)).
  - intros model self text. do 3 eexists. split.
    + apply analyze_with_spacy_form.
    + apply (filters_sorted_by_priority _ _ _ fromkeys).
      apply FromKeys.elem_of_fromkeys.
Qed.

(** The question test fails on scenario 1 when the sentence starts with
    the token "We". *)
Lemma scenario1_not_question doc :
  text <$> tokens doc !! 0%nat = Some (lit "We") →
  _is_question scenario1 doc = Some false.
Proof.
  intros H. unfold _is_question, truthy, len, getitem.
  destruct (tokens doc) as [|t ts]; [discriminate|].
  injection H as Ht.
  cbn [lookup list_lookup length Nat.eqb negb].
  assert (contains (lit "?") scenario1 = false) as -> by (vm_compute; reflexivity).
  rewrite !bind_ret.
  assert (mem (lower (text t)) question_words = false) as ->
    by (rewrite Ht; vm_compute; reflexivity).
  assert (any_in uncertainty_phrases (lower scenario1) = false) as ->
    by (vm_compute; reflexivity).
  assert (mem (lower (text t)) aux_verbs = false) as ->
    by (rewrite Ht; vm_compute; reflexivity).
  reflexivity.
Qed.

Lemma scenario1_decision doc : _is_decision scenario1 doc = Some true.
Proof.
  unfold _is_decision.
  assert (any_in decision_verbs (lower scenario1) = true) as ->
    by (vm_compute; reflexivity).
  reflexivity.
Qed.

(** C3.  Scenario 1, "We decided to ship on Friday.": the decisions are
    that sentence alone and the actions and questions are empty, under
    the pattern-matching strategy and under the annotation-based one, for
    every annotation engine that takes the text as one sentence and reads
    "We" as its first token. *)
Theorem scenario1_both_strategies (model : Language) :
  sents (model scenario1) = [scenario1] →
  text <$> tokens (model scenario1) !! 0%nat = Some (lit "We") →
  analyze_with_spacy (module_init (Loaded model)) __init__ scenario1
  = Some (results_dict [] [scenario1] [])
  ∧ analyze_with_patterns __init__ scenario1
    = Some (results_dict [] [scenario1] []).
Proof.
  intros Hsents Htok. split; [|vm_compute; reflexivity].
  rewrite analyze_with_spacy_form. cbv zeta.
  assert (sentences_of (model scenario1) = [scenario1]) as ->.
  { unfold sentences_of. rewrite Hsents. reflexivity. }
  assert (sq model scenario1 = false) as Hq.
  { unfold sq. by rewrite scenario1_not_question. }
  assert (sd model scenario1 = true) as Hd.
  { unfold sd. by rewrite scenario1_decision. }
  rewrite (filter_cons_False (to_questions _))
    by (unfold to_questions; congruence).
  rewrite (filter_cons_True (to_decisions _ _)) by done.
  rewrite (filter_cons_False (to_actions _ _ _))
    by (unfold to_actions; intros (? & ? & ?); congruence).
  reflexivity.
Qed.

Lemma scenario1_both_strategies_witness :
  analyze_with_spacy (module_init (Loaded one_sentence_model)) __init__
    scenario1
  = Some (results_dict [] [scenario1] [])
  ∧ analyze_with_patterns __init__ scenario1
    = Some (results_dict [] [scenario1] []).
Proof.
  apply (scenario1_both_strategies one_sentence_model); reflexivity.
Defined.

Lemma filters_mutually_exclusive tq td ta (f : list str → list str) units :
  (∀ x l, x ∈ f l ↔ x ∈ l) →
  mutually_exclusive
    (f (filter (to_actions tq td ta) units))
    (f (filter (to_decisions tq td) units))
    (f (filter (to_questions tq) units)).
Proof.
  intros Hf u. rewrite !Hf, !list_elem_of_filter.
  pose proof (placement_exclusive tq td ta u). tauto.
Qed.

(** C4.  Under both strategies, and whatever the module found at start-up,
    a unit's text is in at most one of the actions, the decisions and the
    questions of a result. *)
Theorem categories_mutually_exclusive :
  (∀ self text, ∃ a d q,
      analyze_with_patterns self text = Some (results_dict a d q)
      ∧ mutually_exclusive a d q)
  ∧ (∀ s self text, ∃ a d q,
      analyze_with_spacy (module_init s) self text
      = Some (results_dict a d q)
      ∧ mutually_exclusive a d q).
Proof.
  assert (∀ self text, ∃ a d q,
             analyze_with_patterns self text = Some (results_dict a d q)
             ∧ mutually_exclusive a d q) as Hpat.
  { intros self text. do 3 eexists. split.
    - apply analyze_with_patterns_form.
    - by apply (filters_mutually_exclusive _ _ _ (fun l => l)). }
  split; [done|]. intros [| |model] self text.
  - rewrite spacy_unavailable by done. apply Hpat.
  - rewrite spacy_unavailable by done. apply Hpat.
  - do 3 eexists. split.
    + apply analyze_with_spacy_form.
    + apply (filters_mutually_exclusive _ _ _ fromkeys).
      apply FromKeys.elem_of_fromkeys.
Qed.

Lemma units_of_lines_blank text : blank text → units_of_lines text = [].
Proof.
  intros H. unfold units_of_lines.
  pose proof (split_blank newline text H) as Hl. unfold newline in Hl.
  induction Hl as [|line lines Hline _ IH]; [done|].
  rewrite fmap_cons, filter_cons_False; [done|].
  rewrite strip_blank by done. intros Hne. by apply Hne.
Qed.

Lemma sentences_of_blank doc : Forall blank (sents doc) → sentences_of doc = [].
Proof.
  unfold sentences_of. induction 1 as [|sent l Hsent _ IH]; [done|].
  cbn [omap list_omap]. rewrite strip_blank by done.
  rewrite bool_decide_eq_true_2 by done. apply IH.
Qed.

(** ** An engine that can raise *)

Module EngineFacts.

Lemma analyze_with_spacy_loaded g engine self text :
  SPACY_AVAILABLE g = true → nlp g = Some engine →
  analyze_with_spacy g self text = analyze_with_spacy (loaded engine) self text.
Proof. intros Ha Hn. unfold analyze_with_spacy, loaded. by rewrite Ha, Hn. Qed.

(** What the engine raises on the text leaves the method. *)
Lemma engine_raises_on_text engine self text :
  engine text = None → analyze_with_spacy (loaded engine) self text = None.
Proof. intros H. unfold analyze_with_spacy, loaded. simpl. by rewrite H. Qed.

Lemma place_returns tq td ta a d q u :
  ∃ a' d' q',
    place tq td ta (results_dict a d q) u = Some (results_dict a' d' q').
Proof.
  rewrite place_cases. repeat case_match;
    rewrite ?append_questions, ?append_decisions, ?append_actions; eauto.
Qed.

Section Loop.

Variable engine : Nlp.

(** The body of the loop of lines 64-78. *)
Let body (results : gmap string (list str)) (sentence : str)
    : option (gmap string (list str)) :=
  sentence_doc ← engine sentence;
  is_question ← _is_question sentence sentence_doc;
  is_decision ← _is_decision sentence sentence_doc;
  is_action ← _is_action sentence sentence_doc;
  if is_question : bool then append "questions" sentence results
  else if is_decision : bool then append "decisions" sentence results
  else if is_action : bool then append "actions" sentence results
  else Some results.

Lemma body_raises results sentence :
  engine sentence = None → body results sentence = None.
Proof. intros H. unfold body. by rewrite H. Qed.

Lemma body_returns a d q sentence doc :
  engine sentence = Some doc →
  ∃ a' d' q', body (results_dict a d q) sentence
              = Some (results_dict a' d' q').
Proof.
  intros H. unfold body. rewrite H, bind_ret.
  destruct (_is_question_total sentence doc) as [bq ->].
  destruct (_is_decision_total sentence doc) as [bd ->].
  destruct (_is_action_total sentence doc) as [ba ->].
  rewrite !bind_ret.
  apply (place_returns (fun _ => bq) (fun _ => bd) (fun _ => ba)).
Qed.

(** The loop raises exactly when the engine raises on a sentence. *)
Lemma loop_raises a d q (sentences : list str) :
  for_each body (results_dict a d q) sentences = None
  ↔ ∃ sent, sent ∈ sentences ∧ engine sent = None.
Proof.
  revert a d q. induction sentences as [|sent l IH]; intros a d q.
  - split; [done|]. by intros (? & ?%elem_of_nil & _).
  - rewrite for_each_cons. destruct (engine sent) as [doc|] eqn:He.
    + destruct (body_returns a d q sent doc He) as (a' & d' & q' & ->).
      rewrite bind_ret, IH. split.
      * intros (x & Hx & Hr). exists x. split; [by right | done].
      * intros (x & [->|Hx]%elem_of_cons & Hr); [congruence | eauto].
    + rewrite body_raises by done. split; [|done].
      intros _. exists sent. split; [by left | done].
Qed.

Lemma analyze_with_spacy_raises self text :
  analyze_with_spacy (loaded engine) self text = None
  ↔ engine text = None
    ∨ ∃ doc sent, engine text = Some doc ∧ sent ∈ sentences_of doc
                  ∧ engine sent = None.
Proof.
  unfold analyze_with_spacy, loaded. cbn [SPACY_AVAILABLE nlp negb].
  rewrite bind_ret. destruct (engine text) as [doc|] eqn:He.
  - rewrite bind_ret. cbv zeta. fold body. unfold empty_results.
    destruct (for_each body (results_dict [] [] []) (sentences_of doc))
      as [results|] eqn:Hl.
    + split; [done|]. intros [?|(doc' & sent & [= <-] & Hs & Hr)]; [done|].
      assert (for_each body (results_dict [] [] []) (sentences_of doc) = None)
        as Hn by (apply loop_raises; eauto).
      congruence.
    + split; [|done]. intros _. right.
      apply loop_raises in Hl as (sent & Hs & Hr). eauto.
  - split; [by left | done].
Qed.

(** On a document whose sentences are all blank the loop has nothing to
    do. *)
Lemma analyze_with_spacy_blank_sentences self text doc :
  engine text = Some doc → Forall blank (sents doc) →
  analyze_with_spacy (loaded engine) self text = Some empty_results.
Proof.
  intros He Hb. unfold analyze_with_spacy, loaded.
  cbn [SPACY_AVAILABLE nlp negb]. rewrite bind_ret, He, bind_ret. cbv zeta.
  rewrite sentences_of_blank by done. reflexivity.
Qed.

End Loop.

End EngineFacts.

(** C5.  On a text that is empty or only whitespace the pattern-matching
    strategy, and the annotation-based entry point without its
    capability, return the three empty lists and raise nothing.  With an
    engine loaded the result is the three empty lists whenever
    [nlp(text)] returns, its sentences being spans of the text; what
    [nlp(text)] raises leaves the method (line 59 is not guarded). *)
Theorem blank_input_empty_results g self text :
  blank text →
  analyze_with_patterns self text = Some empty_results
  ∧ (SPACY_AVAILABLE g = false →
     analyze_with_spacy g self text = Some empty_results)
  ∧ (∀ engine doc,
       SPACY_AVAILABLE g = true → nlp g = Some engine →
       engine text = Some doc →
       Forall (fun sent => occurs_in sent text) (sents doc) →
       analyze_with_spacy g self text = Some empty_results)
  ∧ (∀ engine,
       SPACY_AVAILABLE g = true → nlp g = Some engine →
       engine text = None →
       analyze_with_spacy g self text = None).
Proof.
  intros Hblank.
  assert (analyze_with_patterns self text = Some empty_results) as Hpat.
  { rewrite analyze_with_patterns_form, units_of_lines_blank by done.
    reflexivity. }
  split; [done|]. split; [|split].
  - intros Hg. by rewrite spacy_unavailable.
  - intros engine doc Hg Hn He Hspans.
    rewrite (EngineFacts.analyze_with_spacy_loaded g engine) by done.
    apply (EngineFacts.analyze_with_spacy_blank_sentences engine _ _ doc);
      [done|].
    eapply Forall_impl; [done|].
    intros sent Hsent. exact (occurs_in_blank _ _ Hsent Hblank).
  - intros engine Hg Hn He.
    rewrite (EngineFacts.analyze_with_spacy_loaded g engine) by done.
    by apply EngineFacts.engine_raises_on_text.
Qed.

Lemma blank_input_empty_results_witness :
  analyze_with_patterns __init__ blank_text = Some empty_results
  ∧ analyze_with_spacy (loaded (limited default_max_length whole_text_model))
      __init__ blank_text
    = Some empty_results.
Proof.
  assert (blank blank_text) as Hb by repeat constructor.
  destruct (blank_input_empty_results
              (loaded (limited default_max_length whole_text_model))
              __init__ blank_text Hb) as (Hp & _ & Hs & _).
  split; [exact Hp|].
  apply (Hs (limited default_max_length whole_text_model)
           (whole_text_model blank_text)); try reflexivity.
  constructor; [|constructor]. exists [], []. reflexivity.
Defined.

(** A million and one spaces, for an engine with spaCy's limit of a
    million characters: the text is blank, and the annotation-based
    strategy raises on it. *)
Lemma blank_input_engine_raises :
  blank long_blank_text
  ∧ analyze_with_spacy (loaded (limited default_max_length whole_text_model))
      __init__ long_blank_text
    = None.
Proof.
  split.
  - unfold long_blank_text. by apply Forall_replicate.
  - apply EngineFacts.engine_raises_on_text. unfold limited, long_blank_text.
    rewrite length_replicate, N2Nat.id. reflexivity.
Qed.

(** C6.  The three category tests return a truth value on every sentence
    and every document, the document without tokens included: the reads
    of [doc[0]] and [doc[i + 1]] are all guarded.  The tests of the
    pattern-matching strategy are [_check_patterns], a function to [bool]
    with no operation that can raise. *)
Theorem category_tests_total sentence doc :
  (∃ b, _is_question sentence doc = Some b)
  ∧ (∃ b, _is_decision sentence doc = Some b)
  ∧ (∃ b, _is_action sentence doc = Some b).
Proof.
  split; [apply _is_question_total|].
  split; [apply _is_decision_total|].
  apply _is_action_total.
Qed.

(** C7.  When the annotation capability is unavailable the
    annotation-based entry point returns what the pattern-matching
    strategy returns on the same text, and raises nothing. *)
Theorem fallback_when_unavailable g self text :
  SPACY_AVAILABLE g = false →
  analyze_with_spacy g self text = analyze_with_patterns self text
  ∧ is_Some (analyze_with_spacy g self text).
Proof.
  intros H. rewrite spacy_unavailable by done. split; [done|].
  rewrite analyze_with_patterns_form. eauto.
Qed.

Lemma fallback_when_unavailable_witness :
  analyze_with_spacy (module_init OSError) __init__ scenario1
  = analyze_with_patterns __init__ scenario1
  ∧ is_Some (analyze_with_spacy (module_init OSError) __init__ scenario1).
Proof. apply (fallback_when_unavailable (module_init OSError)). reflexivity. Defined.

(** C8.  Two calls in a row on the same text, by the same strategy in the
    same process, return the same result, and leave the process, its
    annotation capability included, as it was: the bodies of the two
    methods, run statement by statement in the process, only read the
    globals and the attributes of [self]. *)
Theorem two_calls_same_result p text :
  twice (InProcess.analyze_with_spacy text) p
  = ((analyze_with_spacy (globals p) (analyzer p) text,
      analyze_with_spacy (globals p) (analyzer p) text), p)
  ∧ twice (InProcess.analyze_with_patterns text) p
    = ((analyze_with_patterns (analyzer p) text,
        analyze_with_patterns (analyzer p) text), p).
Proof.
  unfold twice, bind, ret. split.
  - by rewrite !Unchanged.analyze_with_spacy_unchanged.
  - by rewrite !Unchanged.analyze_with_patterns_unchanged.
Qed.

Lemma any_in_spec phrases s :
  any_in phrases s = true ↔ ∃ kw, kw ∈ phrases ∧ occurs_in kw s.
Proof.
  unfold any_in. rewrite existsb_exists. split.
  - intros (kw & Hin & Hc). exists kw.
    split; [by apply list_elem_of_In | by apply contains_spec].
  - intros (kw & Hin & Hc). exists kw.
    split; [by apply list_elem_of_In | by apply contains_spec].
Qed.

(** Each passive indicator holds a decision verb. *)
Lemma passive_holds_verb s :
  any_in passive_indicators s = true → any_in decision_verbs s = true.
Proof.
  unfold any_in at 1. rewrite existsb_exists.
  intros (p & Hp & Hc). apply list_elem_of_In in Hp.
  unfold passive_indicators in Hp. cbn [map] in Hp.
  rewrite !elem_of_cons in Hp.
  destruct Hp as [->|[->|[->|Hp]]]; [| | |by apply elem_of_nil in Hp].
  - apply (any_in_intro (lit "decided")); [by left|].
    by apply (contains_trans _ (lit "it was decided")).
  - apply (any_in_intro (lit "agreed")); [right; by left|].
    by apply (contains_trans _ (lit "it was agreed")).
  - apply (any_in_intro (lit "resolved")); [do 2 right; by left|].
    by apply (contains_trans _ (lit "it was resolved")).
Qed.

Lemma any_in_app l1 l2 s :
  any_in (l1 ++ l2) s = any_in l1 s || any_in l2 s.
Proof. apply existsb_app. Qed.

(** The decision test on its keyword tables alone. *)
Lemma _is_decision_keywords sentence doc :
  any_in (decision_verbs ++ decision_nouns) (lower sentence) = true →
  _is_decision sentence doc = Some true.
Proof.
  rewrite any_in_app. unfold _is_decision. cbv zeta.
  destruct (any_in decision_verbs (lower sentence)); [done|].
  destruct (any_in decision_nouns (lower sentence)); done.
Qed.

Lemma _is_decision_no_token sentence doc :
  tokens doc = [] → _is_decision sentence doc = Some true →
  any_in (decision_verbs ++ decision_nouns) (lower sentence) = true.
Proof.
  intros Ht. rewrite any_in_app. unfold _is_decision. cbv zeta.
  destruct (any_in decision_verbs (lower sentence)) eqn:Hv; [done|].
  destruct (any_in decision_nouns (lower sentence)); [done|].
  destruct (any_in passive_indicators (lower sentence)) eqn:Hp.
  - apply passive_holds_verb in Hp. congruence.
  - rewrite Ht. discriminate.
Qed.

Lemma _is_action_keywords sentence doc :
  any_in action_indicators (lower sentence) = true →
  _is_action sentence doc = Some true.
Proof. intros H. unfold _is_action. cbv zeta. by rewrite H. Qed.

Lemma _is_action_no_token sentence doc :
  tokens doc = [] → _is_action sentence doc = Some true →
  any_in action_indicators (lower sentence) = true.
Proof.
  intros Ht. unfold _is_action, truthy, len. cbv zeta.
  destruct (any_in action_indicators (lower sentence)); [done|].
  rewrite Ht. discriminate.
Qed.

(** C9.  The keyword checks of the annotation-based decision and action
    tests are substring checks on the lower-cased text, not whole-word
    checks: a sentence passes the test as soon as a keyword of the table
    occurs anywhere in its lower case, inside a word or not, and, when the
    document has no token for the other checks to look at, passes it only
    then.  So "undecided" passes the decision test and "willing" the
    action test. *)
Theorem keywords_match_inside_words sentence doc :
  (∀ kw, kw ∈ decision_verbs ++ decision_nouns →
         occurs_in kw (lower sentence) →
         _is_decision sentence doc = Some true)
  ∧ (∀ kw, kw ∈ action_indicators → occurs_in kw (lower sentence) →
           _is_action sentence doc = Some true)
  ∧ (tokens doc = [] → _is_decision sentence doc = Some true →
     ∃ kw, kw ∈ decision_verbs ++ decision_nouns
           ∧ occurs_in kw (lower sentence))
  ∧ (tokens doc = [] → _is_action sentence doc = Some true →
     ∃ kw, kw ∈ action_indicators ∧ occurs_in kw (lower sentence))
  ∧ (contains (lit "undecided") (lower sentence) = true →
     _is_decision sentence doc = Some true)
  ∧ (contains (lit "willing") (lower sentence) = true →
     _is_action sentence doc = Some true).
Proof.
  repeat split.
  - intros kw Hkw Hin. apply _is_decision_keywords, any_in_spec. eauto.
  - intros kw Hkw Hin. apply _is_action_keywords, any_in_spec. eauto.
  - intros Ht Hd. by apply any_in_spec, (_is_decision_no_token _ doc).
  - intros Ht Ha. by apply any_in_spec, (_is_action_no_token _ doc).
  - intros H. apply _is_decision_keywords.
    apply (any_in_intro (lit "decided")); [by left|].
    by apply (contains_trans _ (lit "undecided")).
  - intros H. apply _is_action_keywords.
    apply (any_in_intro (lit "will")); [by left|].
    by apply (contains_trans _ (lit "willing")).
Qed.

Lemma keywords_match_inside_words_witness :
  _is_decision undecided_but_willing (whole_text_model undecided_but_willing)
  = Some true
  ∧ _is_action undecided_but_willing (whole_text_model undecided_but_willing)
    = Some true.
Proof.
  pose proof (keywords_match_inside_words undecided_but_willing
                (whole_text_model undecided_but_willing))
    as (_ & _ & _ & _ & Hd & Ha).
  split; [apply Hd | apply Ha]; vm_compute; reflexivity.
Defined.

(** C10.  Under both strategies, and whatever the module found at
    start-up, the result is a dict whose keys are "actions", "decisions"
    and "questions" and no other. *)
Theorem result_has_the_three_keys :
  (∀ self text, ∃ m,
      analyze_with_patterns self text = Some m
      ∧ dom m = ({["actions"; "decisions"; "questions"]} : gset string))
  ∧ (∀ s self text, ∃ m,
      analyze_with_spacy (module_init s) self text = Some m
      ∧ dom m = ({["actions"; "decisions"; "questions"]} : gset string)).
Proof.
  split.
  - intros self text. eexists. split.
    + apply analyze_with_patterns_form.
    + apply dom_results_dict.
  - intros s self text.
    destruct (analyze_with_spacy_returns s self text) as (a & d & q & ->).
    eexists. split; [done | apply dom_results_dict].
Qed.

(** * Further properties of the engine and of its callers *)

(** ** Stripping *)

Module StripFacts.

Lemma lstrip_app_blank pre s : blank pre → lstrip (pre ++ s) = lstrip s.
Proof. induction 1 as [|c pre Hc _ IH]; simpl; [done | by rewrite Hc]. Qed.

Lemma lstrip_head s c : head s = Some c → isspace c = false → lstrip s = s.
Proof. destruct s as [|c' s]; [done|]. intros [= ->] Hc. simpl. by rewrite Hc. Qed.

(** [lstrip] removes a blank prefix, and what is left does not start with
    whitespace. *)
Lemma lstrip_split s :
  ∃ pre, s = pre ++ lstrip s ∧ blank pre
         ∧ ∀ c, head (lstrip s) = Some c → isspace c = false.
Proof.
  induction s as [|c s (pre & Hs & Hpre & Hhead)].
  - exists []. repeat split; [constructor | done].
  - simpl. destruct (isspace c) eqn:Hc.
    + exists (c :: pre). split; [by rewrite Hs at 1|].
      split; [by constructor | done].
    + exists []. split; [done|]. split; [constructor|].
      intros c' [= <-]. done.
Qed.

Lemma blank_rev s : blank s → blank (rev s).
Proof.
  unfold blank. rewrite !Forall_forall. intros H c Hc. apply H.
  by apply list_elem_of_In, in_rev, list_elem_of_In.
Qed.

Lemma head_rev (s : str) : head (rev s) = last s.
Proof.
  induction s as [|c s _] using rev_ind; [done|].
  rewrite rev_app_distr, last_snoc. reflexivity.
Qed.

Lemma last_rev (s : str) : last (rev s) = head s.
Proof. rewrite <- (rev_involutive s) at 2. symmetry. apply head_rev. Qed.

(** A trimmed text between two blank texts is what [strip] returns. *)
Lemma strip_unique pre m post :
  blank pre → blank post → trimmed m → strip (pre ++ m ++ post) = m.
Proof.
  intros Hpre Hpost [Hhead Hlast]. unfold strip, rstrip.
  rewrite lstrip_app_blank by done.
  destruct m as [|c m].
  - simpl. by rewrite (lstrip_blank post).
  - rewrite (lstrip_head ((c :: m) ++ post) c); [|done|by apply Hhead].
    rewrite rev_app_distr, lstrip_app_blank by by apply blank_rev.
    destruct (last (c :: m)) as [c'|] eqn:Hl.
    + rewrite (lstrip_head (rev (c :: m)) c'), rev_involutive;
        [done| |by apply Hlast].
      by rewrite head_rev.
    + apply last_None in Hl. discriminate.
Qed.

(** [strip] cuts a blank prefix and a blank suffix off, and what is left is
    trimmed. *)
Lemma strip_split s :
  ∃ pre post, s = pre ++ strip s ++ post ∧ blank pre ∧ blank post
              ∧ trimmed (strip s).
Proof.
  destruct (lstrip_split s) as (pre & Hs & Hpre & Hhead).
  destruct (lstrip_split (rev (lstrip s))) as (tsop & Hr & Htsop & Hlast).
  exists pre, (rev tsop).
  assert (lstrip s = strip s ++ rev tsop) as Hl.
  { unfold strip, rstrip. rewrite <- rev_app_distr, <- Hr.
    by rewrite rev_involutive. }
  split; [by rewrite <- Hl|]. split; [done|].
  split; [by apply blank_rev|]. split.
  - intros c Hc. apply Hhead. rewrite Hl.
    destruct (strip s); [done|]. done.
  - intros c Hc. apply Hlast. unfold strip, rstrip in Hc.
    by rewrite last_rev in Hc.
Qed.

Lemma strip_trimmed s : trimmed (strip s).
Proof. by destruct (strip_split s) as (? & ? & ? & ? & ? & ?). Qed.

Lemma strip_of_trimmed m : trimmed m → strip m = m.
Proof.
  intros H. rewrite <- (strip_unique [] m []) at 2; try done; try constructor.
  by rewrite app_nil_r.
Qed.

Lemma strip_occurs_in s : occurs_in (strip s) s.
Proof. destruct (strip_split s) as (pre & post & H & _). by exists pre, post. Qed.

Lemma strip_nil_blank s : strip s = [] ↔ blank s.
Proof.
  split; [|apply strip_blank].
  destruct (strip_split s) as (pre & post & H & Hpre & Hpost & _).
  intros He. rewrite He in H. rewrite H. unfold blank.
  by apply Forall_app.
Qed.

Lemma strip_app_blank_l pre s : blank pre → strip (pre ++ s) = strip s.
Proof.
  intros Hpre. destruct (strip_split s) as (p & q & H & Hp & Hq & Ht).
  rewrite H at 1. rewrite app_assoc. apply strip_unique; [|done..].
  unfold blank. by apply Forall_app.
Qed.

Lemma strip_app_blank_r s post : blank post → strip (s ++ post) = strip s.
Proof.
  intros Hpost. destruct (strip_split s) as (p & q & H & Hp & Hq & Ht).
  rewrite H at 1. rewrite <- !app_assoc. apply strip_unique; [done| |done].
  unfold blank. by apply Forall_app.
Qed.

End StripFacts.
Import StripFacts.

(** ** Splitting and joining *)

Module SplitFacts.

Lemma split_nonempty sep s : split sep s ≠ [].
Proof.
  destruct s as [|c s]; simpl; [done|].
  case_decide; [done|]. by destruct (split sep s).
Qed.

Lemma split_cons_sep sep s : split sep (sep :: s) = [] :: split sep s.
Proof. simpl. by rewrite decide_True. Qed.

Lemma split_cons_other sep c s :
  c ≠ sep →
  ∃ piece rest, split sep s = piece :: rest
                ∧ split sep (c :: s) = (c :: piece) :: rest.
Proof.
  intros Hc. simpl. rewrite decide_False by done.
  pose proof (split_nonempty sep s).
  destruct (split sep s) as [|piece rest]; [done|]. eauto.
Qed.

(** No piece holds the separator. *)
Lemma split_sep_free sep s : Forall (fun piece => sep ∉ piece) (split sep s).
Proof.
  induction s as [|c s IH]; simpl.
  - repeat constructor. apply not_elem_of_nil.
  - case_decide as Hc.
    + constructor; [apply not_elem_of_nil | done].
    + destruct (split sep s) as [|piece rest].
      * repeat constructor. rewrite list_elem_of_singleton. congruence.
      * inversion IH; subst. constructor; [|done].
        rewrite elem_of_cons. intros [?|?]; [congruence | done].
Qed.

Lemma join_cons_cons sep x y l :
  join sep (x :: y :: l) = x ++ sep ++ join sep (y :: l).
Proof. reflexivity. Qed.

(** Joining the pieces with the separator gives the text back. *)
Lemma join_split sep s : join [sep] (split sep s) = s.
Proof.
  induction s as [|c s IH]; [done|].
  destruct (decide (c = sep)) as [->|Hc].
  - rewrite split_cons_sep. pose proof (split_nonempty sep s).
    destruct (split sep s) as [|piece rest]; [done|].
    rewrite join_cons_cons, IH. reflexivity.
  - destruct (split_cons_other sep c s Hc) as (piece & rest & Hs & ->).
    rewrite Hs in IH. destruct rest as [|piece' rest].
    + simpl in *. by rewrite IH.
    + rewrite join_cons_cons in *. simpl. by rewrite <- IH.
Qed.

Lemma split_sep_free_id sep p : sep ∉ p → split sep p = [p].
Proof.
  induction p as [|c p IH]; [done|].
  rewrite elem_of_cons. intros H. simpl.
  rewrite decide_False by (intros ->; apply H; by left).
  rewrite IH by (intros ?; apply H; by right). reflexivity.
Qed.

Lemma split_app_sep sep p s :
  sep ∉ p → split sep (p ++ sep :: s) = p :: split sep s.
Proof.
  induction p as [|c p IH]; intros H.
  - apply split_cons_sep.
  - rewrite elem_of_cons in H. cbn [app split].
    rewrite decide_False by (intros ->; apply H; by left).
    rewrite IH by (intros ?; apply H; by right). reflexivity.
Qed.

(** Splitting a text joined from pieces without separator gives the
    pieces back; there must be a piece, for the empty text splits into
    one empty piece. *)
Lemma split_join sep ps :
  ps ≠ [] → Forall (fun piece => sep ∉ piece) ps →
  split sep (join [sep] ps) = ps.
Proof.
  intros Hne Hfree. induction Hfree as [|p ps Hp Hps IH]; [done|].
  destruct ps as [|q ps].
  - simpl. by apply split_sep_free_id.
  - rewrite join_cons_cons. cbn [app].
    rewrite split_app_sep by done. by rewrite IH.
Qed.

Lemma join_snoc sep l x :
  l ≠ [] → join sep (l ++ [x]) = join sep l ++ sep ++ x.
Proof.
  induction l as [|y l IH]; [done|]. intros _.
  destruct l as [|z l]; [done|].
  cbn [app]. rewrite !join_cons_cons. cbn [app] in IH.
  rewrite IH by done. by rewrite <- !app_assoc.
Qed.

Lemma rev_nonempty {A} (l : list A) : l ≠ [] → rev l ≠ [].
Proof. intros H Hr. apply H. by rewrite <- (rev_involutive l), Hr. Qed.

Lemma join_rev sep ps :
  rev (join [sep] ps) = join [sep] (rev (@rev ascii <$> ps)).
Proof.
  induction ps as [|p ps IH]; [done|].
  destruct ps as [|q ps]; [done|].
  rewrite join_cons_cons, !rev_app_distr, IH.
  change (@rev ascii <$> p :: q :: ps)
    with (rev p :: (@rev ascii <$> q :: ps)).
  change (rev (rev p :: (@rev ascii <$> q :: ps)))
    with (rev (@rev ascii <$> q :: ps) ++ [rev p]).
  rewrite join_snoc.
  - by rewrite <- !app_assoc.
  - by apply rev_nonempty.
Qed.

(** The lines of the text read backwards are the lines read backwards, in
    the opposite order. *)
Lemma split_rev sep s : split sep (rev s) = rev (@rev ascii <$> split sep s).
Proof.
  rewrite <- (join_split sep s) at 1. rewrite join_rev.
  apply split_join.
  - pose proof (split_nonempty sep s).
    apply rev_nonempty. by destruct (split sep s).
  - apply Forall_forall. intros p Hp.
    apply list_elem_of_In, in_rev, list_elem_of_In in Hp.
    apply list_elem_of_fmap in Hp as (p' & -> & Hp').
    pose proof (split_sep_free sep s) as Hfree.
    rewrite Forall_forall in Hfree. intros Hin. apply (Hfree p' Hp').
    by apply list_elem_of_In, in_rev, list_elem_of_In.
Qed.

(** A piece is a part of the text. *)
Lemma split_occurs_in sep s piece : piece ∈ split sep s → occurs_in piece s.
Proof.
  rewrite <- (join_split sep s) at 2. generalize (split sep s).
  intros ps. induction ps as [|p ps IH]; [by intros ?%elem_of_nil|].
  destruct ps as [|q ps].
  - intros ->%list_elem_of_singleton. exists [], []. simpl. by rewrite app_nil_r.
  - rewrite elem_of_cons, join_cons_cons. intros [->|H].
    + by exists [], ([sep] ++ join [sep] (q :: ps)).
    + destruct (IH H) as (pre & post & ->).
      exists (p ++ [sep] ++ pre), post. by rewrite <- !app_assoc.
Qed.

End SplitFacts.
Import SplitFacts.

(** ** The units of the pattern-matching strategy *)

Module UnitFacts.

Lemma units_cons_space c text :
  isspace c = true → units_of_lines (c :: text) = units_of_lines text.
Proof.
  intros Hc. unfold units_of_lines. fold newline.
  destruct (decide (c = newline)) as [->|Hne].
  - rewrite split_cons_sep, fmap_cons.
    rewrite filter_cons_False; [done|]. intros H. by apply H.
  - destruct (split_cons_other newline c text Hne)
      as (piece & rest & Hs & ->).
    rewrite Hs, !fmap_cons. change (c :: piece) with ([c] ++ piece).
    rewrite strip_app_blank_l; [done|]. by repeat constructor.
Qed.

Lemma units_blank_l pre text :
  blank pre → units_of_lines (pre ++ text) = units_of_lines text.
Proof.
  induction 1 as [|c pre Hc _ IH]; [done|].
  cbn [app]. by rewrite units_cons_space.
Qed.

Lemma trimmed_rev m : trimmed m → trimmed (rev m).
Proof.
  intros [Hhead Hlast]. split; intros c.
  - rewrite head_rev. apply Hlast.
  - rewrite last_rev. apply Hhead.
Qed.

Lemma strip_rev s : strip (rev s) = rev (strip s).
Proof.
  destruct (strip_split s) as (pre & post & H & Hpre & Hpost & Ht).
  rewrite H at 1. rewrite !rev_app_distr, <- app_assoc.
  apply strip_unique; auto using blank_rev, trimmed_rev.
Qed.

Lemma units_rev text :
  units_of_lines (rev text) = rev (@rev ascii <$> units_of_lines text).
Proof.
  unfold units_of_lines. rewrite split_rev. generalize (split "010" text).
  intros ps. unfold str in *. induction ps as [|p ps IH]; [done|].
  rewrite !fmap_cons. cbn [rev]. rewrite fmap_app, filter_app, IH.
  cbn [fmap list_fmap]. rewrite strip_rev.
  destruct (decide (strip p = [])) as [He|Hne].
  - rewrite He. cbn [rev].
    rewrite !filter_cons_False by (intros H; by apply H).
    rewrite filter_nil. by rewrite app_nil_r.
  - rewrite !filter_cons_True; [|done|].
    + rewrite filter_nil, fmap_cons. reflexivity.
    + intros Hr. apply Hne. by rewrite <- (rev_involutive (strip p)), Hr.
Qed.

Lemma units_blank_r text post :
  blank post → units_of_lines (text ++ post) = units_of_lines text.
Proof.
  intros Hpost.
  rewrite <- (rev_involutive (text ++ post)), units_rev, rev_app_distr.
  rewrite units_blank_l by by apply blank_rev.
  rewrite <- units_rev. by rewrite rev_involutive.
Qed.

(** Stripping the whole text first leaves the units as they are. *)
Lemma units_strip text : units_of_lines (strip text) = units_of_lines text.
Proof.
  destruct (strip_split text) as (pre & post & H & Hpre & Hpost & _).
  rewrite H at 2. by rewrite units_blank_l, units_blank_r.
Qed.

Lemma occurs_in_not_elem (c : ascii) p s : occurs_in p s → c ∉ s → c ∉ p.
Proof.
  intros (pre & post & ->) Hc Hp. apply Hc.
  rewrite !elem_of_app. tauto.
Qed.

(** A unit is the stripped form of a line: not empty, trimmed, within one
    line, and a part of the text. *)
Lemma unit_shape text u :
  u ∈ units_of_lines text →
  u ≠ [] ∧ trimmed u ∧ (newline ∉ u) ∧ occurs_in u text.
Proof.
  unfold units_of_lines. fold newline.
  rewrite list_elem_of_filter, list_elem_of_fmap.
  intros (Hne & line & -> & Hline). split; [done|].
  split; [apply strip_trimmed|].
  pose proof (split_sep_free newline text) as Hfree.
  rewrite Forall_forall in Hfree. split.
  - eapply occurs_in_not_elem; [apply strip_occurs_in | by apply Hfree].
  - eapply occurs_in_trans; [apply strip_occurs_in|].
    by eapply split_occurs_in.
Qed.

(** A text of that shape is its own and only unit. *)
Lemma units_of_unit u :
  u ≠ [] → trimmed u → newline ∉ u → units_of_lines u = [u].
Proof.
  intros Hne Ht Hnl. unfold units_of_lines. fold newline.
  rewrite split_sep_free_id by done. cbn [fmap list_fmap].
  rewrite strip_of_trimmed by done. by rewrite filter_cons_True.
Qed.

End UnitFacts.
Import UnitFacts.

(** ** The regular expressions *)

Module ReFacts.

(** Case analysis on the 256 characters. *)
Ltac each_char c := destruct c as [[] [] [] [] [] [] [] []].

Lemma lower_char_idemp c : lower_char (lower_char c) = lower_char c.
Proof. each_char c; vm_compute; reflexivity. Qed.

Lemma isspace_lower_char c : isspace (lower_char c) = isspace c.
Proof. each_char c; vm_compute; reflexivity. Qed.

Lemma is_word_lower_char c : is_word (lower_char c) = is_word c.
Proof. each_char c; vm_compute; reflexivity. Qed.

(** A character is in lower case already, or it is the upper case of its
    lower case. *)
Lemma lower_or_upper c :
  lower_char c = c ∨ (upper_char (lower_char c) = c ∧ upper_char c = c).
Proof. each_char c; vm_compute; auto. Qed.

Lemma matches_question_mark c : lower_char "?" = lower_char c → c = "?"%char.
Proof. each_char c; vm_compute; intros H; try reflexivity; discriminate H. Qed.

(** A test of the character, of its lower case and of its upper case
    comes out the same for the lower case of the character. *)
Lemma either_case_lower (f : ascii → bool) c :
  f (lower_char c) || f (lower_char (lower_char c))
  || f (upper_char (lower_char c))
  = f c || f (lower_char c) || f (upper_char c).
Proof.
  rewrite lower_char_idemp.
  destruct (lower_or_upper c) as [->|[-> ->]]; [done|].
  destruct (f c), (f (lower_char c)); reflexivity.
Qed.

Lemma cset_mem_lower_char cs c : cset_mem cs (lower_char c) = cset_mem cs c.
Proof.
  destruct cs as [|l|l|lo hi]; simpl.
  - apply isspace_lower_char.
  - exact (either_case_lower (fun x => bool_decide (x ∈ l)) c).
  - f_equal. exact (either_case_lower (fun x => bool_decide (x ∈ l)) c).
  - apply (either_case_lower (in_range lo hi)).
Qed.

Lemma match_lit_lower p prev s k k' :
  same_on_lower k k' →
  match_lit p (lower_char <$> prev) (lower s) k' = match_lit p prev s k.
Proof.
  intros Hk. revert prev s. induction p as [|a p IH]; intros prev s.
  - apply Hk.
  - destruct s as [|c s]; [done|]. cbn [lower map match_lit].
    rewrite lower_char_idemp. f_equal. apply (IH (Some c)).
Qed.

Lemma match_star_lower cs prev s k k' :
  same_on_lower k k' →
  match_star cs (lower_char <$> prev) (lower s) k' = match_star cs prev s k.
Proof.
  intros Hk. revert prev. induction s as [|c s IH]; intros prev.
  - cbn [lower map match_star]. f_equal. apply (Hk prev []).
  - cbn [lower map match_star]. rewrite cset_mem_lower_char.
    f_equal; [apply (Hk prev (c :: s))|]. f_equal. apply (IH (Some c)).
Qed.

Lemma matches_lower r prev s k k' :
  same_on_lower k k' →
  matches r (lower_char <$> prev) (lower s) k' = matches r prev s k.
Proof.
  revert prev s k k'.
  induction r as [p|cs|cs|cs| |r1 IH1 r2 IH2|r1 IH1 r2 IH2];
    intros prev s k k' Hk; cbn [matches].
  - by apply match_lit_lower.
  - destruct s as [|c s]; [done|]. cbn [lower map].
    rewrite cset_mem_lower_char. f_equal. apply (Hk (Some c) s).
  - by apply match_star_lower.
  - destruct s as [|c s]; [done|]. cbn [lower map].
    rewrite cset_mem_lower_char. f_equal.
    by apply (match_star_lower cs (Some c)).
  - f_equal; [|apply Hk]. f_equal.
    + destruct prev; [apply is_word_lower_char | done].
    + destruct s; [done | apply is_word_lower_char].
  - apply IH1. intros prev' s'. by apply IH2.
  - f_equal; [by apply IH1 | by apply IH2].
Qed.

Lemma search_from_lower r prev s :
  search_from r (lower_char <$> prev) (lower s) = search_from r prev s.
Proof.
  revert prev. induction s as [|c s IH]; intros prev.
  - cbn [lower map search_from]. f_equal. by apply (matches_lower r prev []).
  - cbn [lower map search_from]. f_equal.
    + by apply (matches_lower r prev (c :: s)).
    + apply (IH (Some c)).
Qed.

Lemma search_lower r s : search r (lower s) = search r s.
Proof. apply (search_from_lower r None). Qed.

Lemma _check_patterns_lower text patterns :
  _check_patterns (lower text) patterns = _check_patterns text patterns.
Proof.
  induction patterns as [|r patterns IH]; [done|].
  cbn [_check_patterns]. by rewrite search_lower, IH.
Qed.

(** What a match leaves to its continuation is an end of the text. *)
Lemma match_lit_rest p prev s k :
  match_lit p prev s k = true →
  ∃ prev' w s', s = w ++ s' ∧ k prev' s' = true.
Proof.
  revert prev s. induction p as [|a p IH]; intros prev s; cbn [match_lit].
  - intros H. by exists prev, [], s.
  - destruct s as [|c s]; [done|]. intros [_ H]%andb_true_iff.
    destruct (IH _ _ H) as (prev' & w & s' & -> & Hk).
    by exists prev', (c :: w), s'.
Qed.

Lemma match_star_rest cs prev s k :
  match_star cs prev s k = true →
  ∃ prev' w s', s = w ++ s' ∧ k prev' s' = true.
Proof.
  revert prev. induction s as [|c s IH]; intros prev; cbn [match_star].
  - rewrite orb_false_r. intros H. by exists prev, [], [].
  - intros [H|[_ H]%andb_true_iff]%orb_true_iff.
    + by exists prev, [], (c :: s).
    + destruct (IH _ H) as (prev' & w & s' & -> & Hk).
      by exists prev', (c :: w), s'.
Qed.

Lemma matches_rest r prev s k :
  matches r prev s k = true →
  ∃ prev' w s', s = w ++ s' ∧ k prev' s' = true.
Proof.
  revert prev s k.
  induction r as [p|cs|cs|cs| |r1 IH1 r2 IH2|r1 IH1 r2 IH2];
    intros prev s k; cbn [matches].
  - apply match_lit_rest.
  - destruct s as [|c s]; [done|]. intros [_ H]%andb_true_iff.
    by exists (Some c), [c], s.
  - apply match_star_rest.
  - destruct s as [|c s]; [done|]. intros [_ H]%andb_true_iff.
    destruct (match_star_rest _ _ _ _ H) as (prev' & w & s' & -> & Hk).
    by exists prev', (c :: w), s'.
  - intros [_ H]%andb_true_iff. by exists prev, [], s.
  - intros H. destruct (IH1 _ _ _ H) as (p1 & w1 & s1 & -> & H1).
    destruct (IH2 _ _ _ H1) as (p2 & w2 & s2 & -> & H2).
    exists p2, (w1 ++ w2), s2. by rewrite <- app_assoc.
  - intros [H|H]%orb_true_iff; [exact (IH1 _ _ _ H) | exact (IH2 _ _ _ H)].
Qed.

(** [re.search] finds a match that starts somewhere in the text. *)
Lemma search_from_start r prev s :
  search_from r prev s = true →
  ∃ prev' pre t, s = pre ++ t ∧ matches r prev' t (fun _ _ => true) = true.
Proof.
  revert prev. induction s as [|c s IH]; intros prev; cbn [search_from].
  - rewrite orb_false_r. intros H. by exists prev, [], [].
  - intros [H|H]%orb_true_iff.
    + by exists prev, [], (c :: s).
    + destruct (IH _ H) as (prev' & pre & t & -> & Hm).
      by exists prev', (c :: pre), t.
Qed.

Lemma search_from_at r prev pre t :
  (∀ prev', matches r prev' t (fun _ _ => true) = true) →
  search_from r prev (pre ++ t) = true.
Proof.
  intros Hm. revert prev. induction pre as [|c pre IH]; intros prev.
  - destruct t; cbn [app search_from]; by rewrite Hm.
  - cbn [app search_from]. rewrite (IH (Some c)). apply orb_true_r.
Qed.

(** A match that ends with the literal "?" needs a question mark in the
    text. *)
Lemma ends_with_question_mark r s :
  search (Seq r (Lit (lit "?"))) s = true → "?"%char ∈ s.
Proof.
  intros H. destruct (search_from_start _ _ _ H) as (prev & pre & t & -> & Hm).
  cbn [matches] in Hm.
  destruct (matches_rest _ _ _ _ Hm) as (prev' & w & s' & -> & Hl).
  clear H Hm. rename Hl into H.
  destruct s' as [|c s']; [done|]. cbn [lit list_ascii_of_string match_lit] in H.
  apply andb_true_iff in H as [Hc _]. apply bool_decide_eq_true in Hc.
  apply matches_question_mark in Hc as ->.
  rewrite !elem_of_app, elem_of_cons. tauto.
Qed.

Lemma contains_char c s : contains [c] s = true ↔ c ∈ s.
Proof.
  rewrite contains_spec. split.
  - intros (pre & post & ->). rewrite !elem_of_app, elem_of_cons. tauto.
  - intros (pre & post & ->)%list_elem_of_split. by exists pre, post.
Qed.

(** The first question pattern, [([^.!?]*\?)], matches exactly the texts
    that hold a question mark. *)
Lemma question_mark_pattern cs s :
  search (Seq (Star (NoneOf cs)) (Lit (lit "?"))) s = contains (lit "?") s.
Proof.
  apply eq_true_iff_eq. rewrite (contains_char "?"). split.
  - apply ends_with_question_mark.
  - intros (pre & post & ->)%list_elem_of_split.
    apply search_from_at. intros prev'. cbn [matches match_star].
    cbn [lit list_ascii_of_string match_lit]. by rewrite bool_decide_eq_true_2.
Qed.

End ReFacts.
Import ReFacts.

(** ** The lists of a result *)

Module ListFacts.

Lemma join_app sep (l1 l2 : list str) :
  l1 ≠ [] → l2 ≠ [] →
  join sep (l1 ++ l2) = join sep l1 ++ sep ++ join sep l2.
Proof.
  intros H1 H2. induction l1 as [|x l1 IH]; [done|].
  destruct l1 as [|y l1].
  - destruct l2 as [|z l2]; [done|]. reflexivity.
  - cbn [app]. rewrite !join_cons_cons. cbn [app] in IH.
    rewrite IH by done. by rewrite <- !app_assoc.
Qed.

(** The lines of two texts put one after the other, a line break
    between them. *)
Lemma split_app_newline sep s1 s2 :
  split sep (s1 ++ [sep] ++ s2) = split sep s1 ++ split sep s2.
Proof.
  rewrite <- (join_split sep s1) at 1. rewrite <- (join_split sep s2) at 1.
  rewrite <- join_app by apply split_nonempty.
  apply split_join.
  - pose proof (split_nonempty sep s1). by destruct (split sep s1).
  - apply Forall_app. split; apply split_sep_free.
Qed.

Lemma units_app_newline text1 text2 :
  units_of_lines (text1 ++ [newline] ++ text2)
  = units_of_lines text1 ++ units_of_lines text2.
Proof.
  unfold units_of_lines. fold newline.
  by rewrite split_app_newline, fmap_app, filter_app.
Qed.

Lemma perm_second {A} (x : A) l1 l2 l3 l4 :
  l1 ++ (x :: l2) ++ l3 ++ l4 ≡ₚ x :: l1 ++ l2 ++ l3 ++ l4.
Proof. symmetry. apply Permutation_middle. Qed.

Lemma perm_third {A} (x : A) l1 l2 l3 l4 :
  l1 ++ l2 ++ (x :: l3) ++ l4 ≡ₚ x :: l1 ++ l2 ++ l3 ++ l4.
Proof.
  rewrite (app_assoc l1 l2 (l3 ++ l4)), (app_assoc l1 l2 ((x :: l3) ++ l4)).
  symmetry. apply Permutation_middle.
Qed.

Lemma perm_fourth {A} (x : A) l1 l2 l3 l4 :
  l1 ++ l2 ++ l3 ++ x :: l4 ≡ₚ x :: l1 ++ l2 ++ l3 ++ l4.
Proof.
  rewrite !(app_assoc l1), !(app_assoc (l1 ++ l2)).
  symmetry. apply Permutation_middle.
Qed.

(** Every unit goes to one of four places. *)
Lemma filter_partition tq td ta (l : list str) :
  filter (to_actions tq td ta) l ++ filter (to_decisions tq td) l
  ++ filter (to_questions tq) l ++ filter (to_none tq td ta) l ≡ₚ l.
Proof.
  induction l as [|u l IH]; [done|].
  destruct (tq u) eqn:Hq; [|destruct (td u) eqn:Hd; [|destruct (ta u) eqn:Ha]].
  - rewrite (filter_cons_True (to_questions tq)) by done.
    rewrite (filter_cons_False (to_decisions tq td))
      by (unfold to_decisions; intros [? ?]; congruence).
    rewrite (filter_cons_False (to_actions tq td ta))
      by (unfold to_actions; intros (? & ? & ?); congruence).
    rewrite (filter_cons_False (to_none tq td ta))
      by (unfold to_none; intros (? & ? & ?); congruence).
    etrans; [apply perm_third | by apply perm_skip].
  - rewrite (filter_cons_False (to_questions tq))
      by (unfold to_questions; congruence).
    rewrite (filter_cons_True (to_decisions tq td)) by done.
    rewrite (filter_cons_False (to_actions tq td ta))
      by (unfold to_actions; intros (? & ? & ?); congruence).
    rewrite (filter_cons_False (to_none tq td ta))
      by (unfold to_none; intros (? & ? & ?); congruence).
    etrans; [apply perm_second | by apply perm_skip].
  - rewrite (filter_cons_False (to_questions tq))
      by (unfold to_questions; congruence).
    rewrite (filter_cons_False (to_decisions tq td))
      by (unfold to_decisions; intros [? ?]; congruence).
    rewrite (filter_cons_True (to_actions tq td ta)) by done.
    rewrite (filter_cons_False (to_none tq td ta))
      by (unfold to_none; intros (? & ? & ?); congruence).
    by apply perm_skip.
  - rewrite (filter_cons_False (to_questions tq))
      by (unfold to_questions; congruence).
    rewrite (filter_cons_False (to_decisions tq td))
      by (unfold to_decisions; intros [? ?]; congruence).
    rewrite (filter_cons_False (to_actions tq td ta))
      by (unfold to_actions; intros (? & ? & ?); congruence).
    rewrite (filter_cons_True (to_none tq td ta)) by done.
    etrans; [apply perm_fourth | by apply perm_skip].
Qed.

Lemma fromkeys_sublist l : fromkeys l `sublist_of` l.
Proof.
  induction l as [|x l IH]; [done|].
  rewrite FromKeys.fromkeys_cons. apply sublist_skip.
  etrans; [apply sublist_filter | done].
Qed.

(** [dict.fromkeys] changes nothing in a list without repetition. *)
Lemma fromkeys_NoDup_id l : NoDup l → fromkeys l = l.
Proof.
  induction 1 as [|x l Hx _ IH]; [done|].
  rewrite FromKeys.fromkeys_cons, IH. f_equal.
  clear IH. induction l as [|y l IH]; [done|].
  rewrite not_elem_of_cons in Hx. destruct Hx as [Hxy Hx].
  rewrite filter_cons_True by done. f_equal. by apply IH.
Qed.

(** A sentence that [analyze_with_spacy] keeps is not empty and is
    trimmed. *)
Lemma sentence_shape doc u : u ∈ sentences_of doc → u ≠ [] ∧ trimmed u.
Proof.
  unfold sentences_of. rewrite list_elem_of_omap.
  intros (sent & _ & H). case_bool_decide as He; [done|].
  injection H as <-. split; [done | apply strip_trimmed].
Qed.

End ListFacts.
Import ListFacts.

(** ** The question mark *)

Lemma pq_question_mark u :
  contains (lit "?") u = true → pq __init__ u = true.
Proof.
  intros H. unfold pq.
  change (question_patterns __init__) with Patterns.question.
  unfold Patterns.question. cbn [_check_patterns seqs].
  by rewrite question_mark_pattern, H.
Qed.

Lemma sq_question_mark model u :
  contains (lit "?") u = true → sq model u = true.
Proof. intros H. unfold sq, _is_question. by rewrite H. Qed.

(** X1.  A line or sentence with a question mark in it is a question, and
    nothing else, under both strategies: the first question pattern and
    the first check of the question test see the mark wherever it is. *)
Theorem question_mark_goes_to_questions :
  (∀ text, ∃ a d q,
      analyze_with_patterns __init__ text = Some (results_dict a d q)
      ∧ ∀ u, u ∈ units_of_lines text → contains (lit "?") u = true →
             u ∈ q ∧ (u ∉ d) ∧ (u ∉ a))
  ∧ (∀ model self text, ∃ a d q,
      analyze_with_spacy (module_init (Loaded model)) self text
      = Some (results_dict a d q)
      ∧ ∀ u, u ∈ sentences_of (model text) → contains (lit "?") u = true →
             u ∈ q ∧ (u ∉ d) ∧ (u ∉ a)).
Proof.
  split.
  - intros text. do 3 eexists. split; [apply analyze_with_patterns_form|].
    intros u Hu Hq.
    by apply (filters_sorted_by_priority _ _ _ (fun l => l) _
                (fun _ _ => reflexivity _) u Hu), pq_question_mark.
  - intros model self text. do 3 eexists.
    split; [apply analyze_with_spacy_form|]. intros u Hu Hq.
    by apply (filters_sorted_by_priority _ _ _ fromkeys _
                FromKeys.elem_of_fromkeys u Hu), sq_question_mark.
Qed.

Lemma seq4_question_mark r1 r2 r3 r4 s :
  search (Seq r1 (Seq r2 (Seq r3 (Seq r4 (Lit (lit "?")))))) s = true →
  "?"%char ∈ s.
Proof.
  intros H. destruct (search_from_start _ _ _ H) as (p0 & pre & t & -> & H0).
  cbn [matches] in H0.
  destruct (matches_rest _ _ _ _ H0) as (p1 & w1 & s1 & -> & H1).
  destruct (matches_rest _ _ _ _ H1) as (p2 & w2 & s2 & -> & H2).
  destruct (matches_rest _ _ _ _ H2) as (p3 & w3 & s3 & -> & H3).
  destruct (matches_rest _ _ _ _ H3) as (p4 & w4 & s4 & -> & H4).
  destruct s4 as [|c s4]; [done|].
  cbn [lit list_ascii_of_string match_lit] in H4.
  apply andb_true_iff in H4 as [Hc _]. apply bool_decide_eq_true in Hc.
  apply matches_question_mark in Hc as ->.
  rewrite !elem_of_app, elem_of_cons. tauto.
Qed.

(** X2.  The third question pattern, the one of the question words, decides
    nothing: it ends with a question mark, and a text with a question
    mark matches the first pattern already.  Without it the question
    group matches the same texts. *)
Theorem question_word_pattern_adds_nothing u :
  _check_patterns u (delete 2%nat Patterns.question)
  = _check_patterns u Patterns.question.
Proof.
  unfold Patterns.question. cbn [delete list_delete _check_patterns].
  destruct (search _ u) eqn:H1 at 1; rewrite H1; [done|].
  destruct (search _ u) eqn:H2 at 1; rewrite H2; [done|].
  match goal with
  | |- _ = (if search ?r u then _ else _) => destruct (search r u) eqn:H3
  end; [|done].
  cbn [seqs] in H1, H3. apply seq4_question_mark in H3.
  rewrite question_mark_pattern in H1.
  apply (contains_char "?") in H3. cbn [lit list_ascii_of_string] in H1.
  congruence.
Qed.

(** ** Letter case *)

(** X3.  On ASCII texts the pattern tests do not see the case of the
    letters ([re.IGNORECASE], line 208): two such texts that are equal in
    lower case match the same groups.  (Outside ASCII, [lower()] and the
    case folding of [re] are not the character-by-character maps of this
    model.) *)
Theorem pattern_tests_ignore_case text1 text2 patterns :
  ascii_only text1 → ascii_only text2 →
  lower text1 = lower text2 →
  _check_patterns text1 patterns = _check_patterns text2 patterns.
Proof.
  intros _ _ H. rewrite <- (_check_patterns_lower text1).
  rewrite <- (_check_patterns_lower text2). by rewrite H.
Qed.

Lemma pattern_tests_ignore_case_witness :
  _check_patterns (lit "ACTION: Call Bob") Patterns.action
  = _check_patterns (lit "action: call bob") Patterns.action.
Proof.
  apply pattern_tests_ignore_case;
    [apply (bool_decide_unpack _); by vm_compute..|].
  vm_compute. reflexivity.
Defined.

(** ** What the pattern-matching strategy returns *)

(** X4.  Every entry of a result of the pattern-matching strategy is a line
    of the text without its surrounding whitespace: it is not empty, it
    neither starts nor ends with whitespace, it holds no line break, and
    it is a part of the text. *)
Theorem patterns_entries_are_stripped_lines self text :
  ∃ a d q,
    analyze_with_patterns self text = Some (results_dict a d q)
    ∧ ∀ u, u ∈ a ++ d ++ q →
           u ≠ [] ∧ trimmed u ∧ (newline ∉ u) ∧ occurs_in u text.
Proof.
  do 3 eexists. split; [apply analyze_with_patterns_form|].
  intros u. rewrite !elem_of_app, !list_elem_of_filter.
  intros [[_ H]|[[_ H]|[_ H]]]; by apply unit_shape.
Qed.

(** X5.  The pattern-matching strategy loses and adds nothing: the three
    lists and the unclassified units are the units, each as many times as
    it occurs, and each list keeps the order of the text. *)
Theorem patterns_lists_partition_units self text :
  ∃ a d q,
    analyze_with_patterns self text = Some (results_dict a d q)
    ∧ a ++ d ++ q
      ++ filter (to_none (pq self) (pd self) (pa self)) (units_of_lines text)
      ≡ₚ units_of_lines text
    ∧ a `sublist_of` units_of_lines text
    ∧ d `sublist_of` units_of_lines text
    ∧ q `sublist_of` units_of_lines text.
Proof.
  do 3 eexists. split; [apply analyze_with_patterns_form|].
  split; [apply filter_partition|]. repeat split; apply sublist_filter.
Qed.

(** X6.  The category of a line does not depend on the other lines: an entry
    of a result, analysed alone, comes back alone in the same list. *)
Theorem patterns_entry_analysed_alone self text :
  ∃ a d q,
    analyze_with_patterns self text = Some (results_dict a d q)
    ∧ (∀ u, u ∈ a →
         analyze_with_patterns self u = Some (results_dict [u] [] []))
    ∧ (∀ u, u ∈ d →
         analyze_with_patterns self u = Some (results_dict [] [u] []))
    ∧ (∀ u, u ∈ q →
         analyze_with_patterns self u = Some (results_dict [] [] [u])).
Proof.
  do 3 eexists. split; [apply analyze_with_patterns_form|].
  repeat split; intros u [Hc Hu]%list_elem_of_filter;
    rewrite analyze_with_patterns_form;
    destruct (unit_shape _ _ Hu) as (Hne & Ht & Hnl & _);
    rewrite units_of_unit by done.
  - rewrite (filter_cons_True (to_actions _ _ _)) by done.
    rewrite (filter_cons_False (to_decisions _ _));
      [|unfold to_actions, to_decisions in *; intros [? ?]; destruct_and!;
        congruence].
    rewrite (filter_cons_False (to_questions _));
      [done | unfold to_actions, to_questions in *; destruct_and!; congruence].
  - rewrite (filter_cons_True (to_decisions _ _)) by done.
    rewrite (filter_cons_False (to_actions _ _ _));
      [|unfold to_actions, to_decisions in *; intros (? & ? & ?);
        destruct_and!; congruence].
    rewrite (filter_cons_False (to_questions _));
      [done | unfold to_decisions, to_questions in *; destruct_and!;
              congruence].
  - rewrite (filter_cons_True (to_questions _)) by done.
    rewrite (filter_cons_False (to_actions _ _ _));
      [|unfold to_actions, to_questions in *; intros (? & ? & ?);
        congruence].
    rewrite (filter_cons_False (to_decisions _ _));
      [done | unfold to_decisions, to_questions in *; intros [? ?];
              congruence].
Qed.

(** X7.  The result for two texts put one after the other, a line break
    between them, is the result for the first followed, list by list, by
    the result for the second. *)
Theorem patterns_result_of_two_texts self text1 text2 :
  ∃ a1 d1 q1 a2 d2 q2,
    analyze_with_patterns self text1 = Some (results_dict a1 d1 q1)
    ∧ analyze_with_patterns self text2 = Some (results_dict a2 d2 q2)
    ∧ analyze_with_patterns self (text1 ++ [newline] ++ text2)
      = Some (results_dict (a1 ++ a2) (d1 ++ d2) (q1 ++ q2)).
Proof.
  do 6 eexists. split; [apply analyze_with_patterns_form|].
  split; [apply analyze_with_patterns_form|].
  rewrite analyze_with_patterns_form, units_app_newline.
  by rewrite !filter_app.
Qed.

(** X8.  Whitespace around the whole text does not count: the stripped text
    has the same result. *)
Theorem patterns_result_of_stripped_text self text :
  analyze_with_patterns self (strip text) = analyze_with_patterns self text.
Proof. by rewrite !analyze_with_patterns_form, units_strip. Qed.

(** ** The callers: the Analyze button and the .docx loader *)

(** X9.  A click on "Analyze" gives the warning exactly when the notes are
    empty or blank.  Without the annotation capability it never ends in
    the error dialog; with an engine loaded it ends there exactly when the
    engine raises, on the stripped notes or on one of their sentences:
    the analysis raises nothing of its own. *)
Theorem analyze_notes_outcomes g self input :
  (analyze_notes g self input = Warning ↔ blank input)
  ∧ (SPACY_AVAILABLE g = false → analyze_notes g self input ≠ Failed)
  ∧ (∀ engine,
       SPACY_AVAILABLE g = true → nlp g = Some engine →
       (analyze_notes g self input = Failed
        ↔ ¬ blank input
          ∧ (engine (strip input) = None
             ∨ ∃ doc sent, engine (strip input) = Some doc
                           ∧ sent ∈ sentences_of doc
                           ∧ engine sent = None))).
Proof.
  unfold analyze_notes. cbv zeta. split; [|split].
  - case_bool_decide as He; rewrite strip_nil_blank in He.
    + done.
    + split; [|done]. by destruct (analyze_with_spacy g self (strip input)).
  - intros Hg. case_bool_decide; [done|].
    rewrite spacy_unavailable, analyze_with_patterns_form by done. done.
  - intros engine Hg Hn.
    rewrite (EngineFacts.analyze_with_spacy_loaded g engine) by done.
    rewrite <- (EngineFacts.analyze_with_spacy_raises engine self).
    case_bool_decide as He; rewrite strip_nil_blank in He.
    + split; [done | tauto].
    + destruct (analyze_with_spacy (loaded engine) self (strip input)).
      * split; [discriminate | intros [_ ?]; discriminate].
      * split; done.
Qed.

Lemma analyze_notes_outcomes_witness :
  analyze_notes (loaded (limited 20 whole_text_model)) __init__
    (lit "Action: update the wiki and tell everyone.")
  = Failed.
Proof.
  destruct (analyze_notes_outcomes (loaded (limited 20 whole_text_model))
              __init__ (lit "Action: update the wiki and tell everyone."))
    as (_ & _ & H).
  apply (H (limited 20 whole_text_model)); [reflexivity..|].
  split.
  - intros Hb. unfold blank in Hb. rewrite Forall_forall in Hb.
    assert (isspace "A" = true) as Hc; [|discriminate Hc].
    apply Hb, list_elem_of_lookup. by exists 0%nat.
  - left. vm_compute. reflexivity.
Defined.

(** X10.  Without the annotation capability, the results shown after a click
    on "Analyze" are those of the pattern-matching strategy on the notes
    as they were typed: that [analyze_notes] strips them first changes
    nothing. *)
Theorem analyze_notes_fallback_result g self input :
  SPACY_AVAILABLE g = false → ¬ blank input →
  ∃ results, analyze_notes g self input = Finished results
             ∧ analyze_with_patterns self input = Some results.
Proof.
  intros Hg Hb. unfold analyze_notes. cbv zeta.
  rewrite bool_decide_eq_false_2 by by rewrite strip_nil_blank.
  rewrite spacy_unavailable by done.
  rewrite !analyze_with_patterns_form, units_strip. eauto.
Qed.

Lemma analyze_notes_fallback_result_witness :
  ∃ results,
    analyze_notes (module_init ImportError) __init__
      (lit "  Action: update the wiki. " ++ [newline])
    = Finished results
    ∧ analyze_with_patterns __init__
        (lit "  Action: update the wiki. " ++ [newline])
      = Some results.
Proof.
  apply analyze_notes_fallback_result; [reflexivity|].
  intros H. unfold blank in H. rewrite Forall_forall in H.
  assert (isspace "A" = true) as Hc; [|discriminate Hc].
  apply H, list_elem_of_lookup. by exists 2%nat.
Defined.

(** X11.  Each paragraph of a .docx document is one line for the analysis,
    as long as no paragraph holds a line break: the units of the text that
    [upload_file] builds are the paragraphs, stripped, the blank ones
    dropped. *)
Theorem docx_paragraphs_are_the_units paragraphs :
  Forall (fun paragraph => newline ∉ paragraph) paragraphs →
  units_of_lines (docx_text paragraphs)
  = filter (fun line => line ≠ []) (strip <$> paragraphs).
Proof.
  intros H. destruct paragraphs as [|p ps].
  - reflexivity.
  - unfold units_of_lines, docx_text. fold newline.
    by rewrite split_join.
Qed.

Lemma docx_paragraphs_are_the_units_witness :
  units_of_lines (docx_text [lit "We decided to ship."; lit " ";
                             lit "Who owns the release?"])
  = filter (fun line => line ≠ [])
      (strip <$> [lit "We decided to ship."; lit " ";
                  lit "Who owns the release?"]).
Proof.
  apply docx_paragraphs_are_the_units.
  repeat (apply Forall_cons; split;
            [apply (bool_decide_unpack _); by vm_compute|]).
  constructor.
Defined.

(** ** What the annotation-based strategy returns *)

(** X12.  Every list of a result of the annotation-based strategy is without
    repetition, keeps the order of the sentences, and holds only
    sentences that are not empty and are trimmed. *)
Theorem spacy_lists_deduplicated_in_order model self text :
  ∃ a d q,
    analyze_with_spacy (module_init (Loaded model)) self text
    = Some (results_dict a d q)
    ∧ (NoDup a ∧ NoDup d ∧ NoDup q)
    ∧ (a `sublist_of` sentences_of (model text)
       ∧ d `sublist_of` sentences_of (model text)
       ∧ q `sublist_of` sentences_of (model text))
    ∧ ∀ u, u ∈ a ++ d ++ q → u ≠ [] ∧ trimmed u.
Proof.
  do 3 eexists. split; [apply analyze_with_spacy_form|]. cbv zeta.
  split; [auto using FromKeys.NoDup_fromkeys|]. split.
  - repeat split; (etrans; [apply fromkeys_sublist | apply sublist_filter]).
  - intros u. rewrite !elem_of_app, !FromKeys.elem_of_fromkeys.
    rewrite !list_elem_of_filter.
    intros [[_ H]|[[_ H]|[_ H]]]; by eapply sentence_shape.
Qed.

(** X13.  When the engine returns sentences that are all different, the
    removal of repetitions drops nothing: the three lists and the
    unclassified sentences are the sentences. *)
Theorem spacy_distinct_sentences_all_kept model self text :
  NoDup (sentences_of (model text)) →
  ∃ a d q,
    analyze_with_spacy (module_init (Loaded model)) self text
    = Some (results_dict a d q)
    ∧ a ++ d ++ q
      ++ filter (to_none (sq model) (sd model) (sa model))
           (sentences_of (model text))
      ≡ₚ sentences_of (model text).
Proof.
  intros Hnd. do 3 eexists. split; [apply analyze_with_spacy_form|].
  cbv zeta. rewrite !fromkeys_NoDup_id by by apply NoDup_filter.
  apply filter_partition.
Qed.

Lemma spacy_distinct_sentences_all_kept_witness :
  ∃ a d q,
    analyze_with_spacy (module_init (Loaded line_model)) __init__
      two_sentences
    = Some (results_dict a d q)
    ∧ a ++ d ++ q
      ++ filter (to_none (sq line_model) (sd line_model) (sa line_model))
           (sentences_of (line_model two_sentences))
      ≡ₚ sentences_of (line_model two_sentences).
Proof.
  apply spacy_distinct_sentences_all_kept.
  apply (bool_decide_unpack _). by vm_compute.
Defined.

(** ** Lower-casing the notes *)

Module LowerFacts.

Lemma lower_char_newline c : lower_char c = newline ↔ c = newline.
Proof.
  split; [|by intros ->].
  each_char c; vm_compute; intros H; try reflexivity; discriminate H.
Qed.

Lemma lower_app s1 s2 : lower (s1 ++ s2) = lower s1 ++ lower s2.
Proof. apply map_app. Qed.

Lemma blank_lower s : blank s → blank (lower s).
Proof.
  unfold blank, lower. intros H. apply Forall_forall. intros c Hc.
  apply list_elem_of_In, in_map_iff in Hc as (c' & <- & Hc').
  rewrite isspace_lower_char. rewrite Forall_forall in H.
  by apply H, list_elem_of_In.
Qed.

Lemma head_lower s : head (lower s) = lower_char <$> head s.
Proof. by destruct s. Qed.

Lemma last_lower s : last (lower s) = lower_char <$> last s.
Proof.
  induction s as [|c s _] using rev_ind; [done|].
  rewrite lower_app. cbn [lower map]. by rewrite !last_snoc.
Qed.

Lemma trimmed_lower m : trimmed m → trimmed (lower m).
Proof.
  intros [Hhead Hlast]. split; intros c.
  - rewrite head_lower. destruct (head m) as [c'|]; [|done].
    intros [= <-]. rewrite isspace_lower_char. by apply Hhead.
  - rewrite last_lower. destruct (last m) as [c'|]; [|done].
    intros [= <-]. rewrite isspace_lower_char. by apply Hlast.
Qed.

Lemma strip_lower s : strip (lower s) = lower (strip s).
Proof.
  destruct (strip_split s) as (pre & post & H & Hpre & Hpost & Ht).
  rewrite H at 1. rewrite !lower_app.
  apply strip_unique; auto using blank_lower, trimmed_lower.
Qed.

Lemma split_lower s : split newline (lower s) = lower <$> split newline s.
Proof.
  induction s as [|c s IH]; [done|].
  cbn [lower map]. fold (lower s).
  destruct (decide (c = newline)) as [->|Hc].
  - change (lower_char newline) with newline.
    by rewrite !split_cons_sep, IH.
  - assert (lower_char c ≠ newline) as Hc' by by rewrite lower_char_newline.
    destruct (split_cons_other newline c s Hc) as (piece & rest & Hs & ->).
    destruct (split_cons_other newline (lower_char c) (lower s) Hc')
      as (piece' & rest' & Hs' & ->).
    rewrite IH, Hs in Hs'. rewrite fmap_cons in Hs'.
    injection Hs' as <- <-. reflexivity.
Qed.

Lemma units_lower text :
  units_of_lines (lower text) = lower <$> units_of_lines text.
Proof.
  unfold units_of_lines. fold newline. rewrite split_lower.
  generalize (split newline text). intros ps.
  induction ps as [|p ps IH]; [done|].
  rewrite !fmap_cons, strip_lower.
  destruct (decide (strip p = [])) as [He|Hne].
  - rewrite He. cbn [lower map].
    rewrite !filter_cons_False by (intros H; by apply H). apply IH.
  - rewrite !filter_cons_True; [|done|].
    + rewrite fmap_cons. f_equal. apply IH.
    + intros H. apply Hne. by destruct (strip p).
Qed.

(** The placement of the lower-cased units, when the three tests do not
    see the case. *)
Lemma filter_lower (P : str → Prop) `{!∀ u, Decision (P u)} (l : list str) :
  (∀ u, P (lower u) ↔ P u) →
  filter P (lower <$> l) = lower <$> filter P l.
Proof.
  intros HP. induction l as [|u l IH]; [done|].
  rewrite fmap_cons. destruct (decide (P u)) as [Hu|Hu].
  - rewrite !filter_cons_True by by rewrite ?HP.
    rewrite fmap_cons. by f_equal.
  - rewrite !filter_cons_False by by rewrite ?HP. done.
Qed.

End LowerFacts.
Import LowerFacts.

(** X14.  Lower-casing ASCII notes lower-cases the entries of the result
    of the pattern-matching strategy and moves none to another list. *)
Theorem patterns_result_of_lower_text self text :
  ascii_only text →
  ∃ a d q,
    analyze_with_patterns self text = Some (results_dict a d q)
    ∧ analyze_with_patterns self (lower text)
      = Some (results_dict (lower <$> a) (lower <$> d) (lower <$> q)).
Proof.
  intros _. do 3 eexists. split; [apply analyze_with_patterns_form|].
  rewrite analyze_with_patterns_form, units_lower.
  rewrite !filter_lower; [done|..]; intros u;
    unfold to_questions, to_decisions, to_actions, pq, pd, pa;
    by rewrite !_check_patterns_lower.
Qed.

Lemma patterns_result_of_lower_text_witness :
  ∃ a d q,
    analyze_with_patterns __init__ mixed_case_notes
    = Some (results_dict a d q)
    ∧ analyze_with_patterns __init__ (lower mixed_case_notes)
      = Some (results_dict (lower <$> a) (lower <$> d) (lower <$> q)).
Proof.
  apply patterns_result_of_lower_text.
  apply (bool_decide_unpack _). by vm_compute.
Defined.

(** ** The tables of the decision test *)

(** X15.  The check of the passive indicators in [_is_decision] (lines 129-132)
    never decides: a sentence with "it was decided", "it was agreed" or
    "it was resolved" holds a decision verb, which the check of lines
    121-123 has found before. *)
Theorem passive_indicators_never_decide s :
  any_in passive_indicators s = true → any_in decision_verbs s = true.
Proof. apply passive_holds_verb. Qed.

Lemma passive_indicators_never_decide_witness :
  any_in decision_verbs (lower (lit "It was agreed to wait.")) = true.
Proof. apply passive_indicators_never_decide. vm_compute. reflexivity. Defined.
